(** * QA-DATASET-GENERATOR: the chunking and orchestration pipeline

    A shallow embedding of [agents.py], [prompts.py] and the document
    loop of [main.py], followed by the properties of the chunker, the
    generator, the validator, the context manager and the orchestrator.

    Python values are modelled as follows.
    - [str] is a list of characters; characters are the code points below
      256, so whitespace and case follow Python's tables on that range.
    - [int] is [Z]; indices and slices follow Python's rules for negative
      and out-of-range positions.
    - the confidence of a pair is a rational ([1.0], [0.5] and the
      threshold [0.8] are the only values the code writes or compares).
    - a [while] loop takes a fuel argument; running out of fuel is a
      result of its own, distinct from returning and from raising.
    - the completion backend is a function from the requests sent so far
      and the current prompt to a reply text, or to nothing when the
      request raises. *)

From Stdlib Require Import ZArith List Ascii String Bool Lia QArith.
Import ListNotations.
Local Open Scope Z_scope.

(** ** Python strings *)

Module Py.

Definition str := list ascii.

(** A string literal. *)
Definition lit (s : string) : str := list_ascii_of_string s.

Definition len (s : str) : Z := Z.of_nat (List.length s).

(** The newline character. *)
Definition nl : ascii := ascii_of_nat 10.

(** An index of a slice, brought into [0 .. n]: a negative index counts
    from the end, and whatever still falls outside is clamped. *)
Definition clamp_index (n i : Z) : Z :=
  if i <? 0 then Z.max (i + n) 0 else Z.min i n.

(** [s[start:stop]] *)
Definition slice (s : str) (start stop : Z) : str :=
  let lo := clamp_index (len s) start in
  let hi := clamp_index (len s) stop in
  firstn (Z.to_nat (hi - lo)) (skipn (Z.to_nat lo) s).

(** [s[start:]] *)
Definition slice_from (s : str) (start : Z) : str :=
  skipn (Z.to_nat (clamp_index (len s) start)) s.

(** [s.startswith(prefix)] *)
Fixpoint startswith (s prefix : str) : bool :=
  match prefix, s with
  | [], _ => true
  | p :: prefix', c :: s' => Ascii.eqb c p && startswith s' prefix'
  | _ :: _, [] => false
  end.

(** [s.startswith((p1, p2, ...))] *)
Definition startswith_any (s : str) (prefixes : list str) : bool :=
  existsb (startswith s) prefixes.

(** [s.rfind(sub)], scanning from position [i] with [best] the highest
    match seen so far. *)
Fixpoint rfind_from (s sub : str) (i best : Z) : Z :=
  let best' := if startswith s sub then i else best in
  match s with
  | [] => best'
  | _ :: s' => rfind_from s' sub (i + 1) best'
  end.

(** [s.rfind(sub)]: the highest index at which [sub] occurs, or [-1]. *)
Definition rfind (s sub : str) : Z := rfind_from s sub 0 (-1).

(** [sub in s] *)
Fixpoint contains (s sub : str) : bool :=
  startswith s sub ||
  match s with
  | [] => false
  | _ :: s' => contains s' sub
  end.

(** [c.isspace()] on the code points below 256. *)
Definition isspace (c : ascii) : bool :=
  let n := Z.of_nat (nat_of_ascii c) in
  ((9 <=? n) && (n <=? 13)) || ((28 <=? n) && (n <=? 32))
  || (n =? 133) || (n =? 160).

(** [s.lstrip()] *)
Fixpoint lstrip (s : str) : str :=
  match s with
  | [] => []
  | c :: s' => if isspace c then lstrip s' else s
  end.

(** [s.rstrip()] *)
Definition rstrip (s : str) : str := rev (lstrip (rev s)).

(** [s.strip()] *)
Definition strip (s : str) : str := rstrip (lstrip s).

(** Truth value of a string: [if s]. *)
Definition truthy (s : str) : bool :=
  match s with
  | [] => false
  | _ :: _ => true
  end.

(** [c.lower()] on the code points below 256: the ASCII capitals and the
    Latin-1 capitals (all of 192..222 but the multiplication sign 215)
    move up by 32. *)
Definition lower_char (c : ascii) : ascii :=
  let n := Z.of_nat (nat_of_ascii c) in
  if ((65 <=? n) && (n <=? 90))
     || ((192 <=? n) && (n <=? 222) && negb (n =? 215))
  then ascii_of_nat (nat_of_ascii c + 32)
  else c.

(** [s.lower()] *)
Definition lower (s : str) : str := map lower_char s.

(** [s.split(sep)] for a separator of one character. *)
Fixpoint split (sep : ascii) (s : str) : list str :=
  match s with
  | [] => [[]]
  | c :: s' =>
      if Ascii.eqb c sep then [] :: split sep s'
      else match split sep s' with
           | cur :: rest => (c :: cur) :: rest
           | [] => [[c]]
           end
  end.

(** What follows the first [sep] in [s], when there is one. *)
Fixpoint after_first (sep : ascii) (s : str) : option str :=
  match s with
  | [] => None
  | c :: s' => if Ascii.eqb c sep then Some s' else after_first sep s'
  end.

(** [s.split(sep, 1)[1]]; the index is out of range when [s] has no
    [sep], which this returns as the empty string (the parser only asks
    for it on lines that start with a prefix holding the separator). *)
Definition split1_second (sep : ascii) (s : str) : str :=
  match after_first sep s with
  | Some rest => rest
  | None => []
  end.

(** [sep.join(parts)] *)
Fixpoint join (sep : str) (parts : list str) : str :=
  match parts with
  | [] => []
  | [p] => p
  | p :: rest => p ++ sep ++ join sep rest
  end.

(** [max(xs)] over integers; there is no maximum of an empty sequence. *)
Fixpoint max_list (xs : list Z) : option Z :=
  match xs with
  | [] => None
  | x :: xs' =>
      match max_list xs' with
      | None => Some x
      | Some m => Some (Z.max x m)
      end
  end.

(** [range(n)] *)
Definition range (n : Z) : list Z := map Z.of_nat (seq 0 (Z.to_nat n)).

(** A dict with integer keys, in insertion order: assigning to a key
    already present replaces its value and keeps its place. *)
Definition dict (V : Type) := list (Z * V).

Definition dict_set {V : Type} (d : dict V) (k : Z) (v : V) : dict V :=
  if existsb (fun kv => fst kv =? k) d
  then map (fun kv => if fst kv =? k then (k, v) else kv) d
  else d ++ [(k, v)].

Definition keys {V : Type} (d : dict V) : list Z := map fst d.

End Py.

Import Py.

(** ** Exceptions and results *)

Inductive exn : Type :=
| ValueError      (* max() arg is an empty sequence *)
| TypeError
| BackendError
| OtherError (tag : nat).

(** The result of a call that may raise. *)
Inductive result (A : Type) : Type :=
| Ok (a : A)
| Raise (e : exn).
Arguments Ok {A} a.
Arguments Raise {A} e.

(** The result of a loop run with fuel. *)
Inductive outcome (A : Type) : Type :=
| Returned (a : A)
| Raised (e : exn)
| OutOfFuel.
Arguments Returned {A} a.
Arguments Raised {A} e.
Arguments OutOfFuel {A}.

(** ** agents.py: QAPair *)

Record QAPair : Type := mkQAPair {
  question : str;
  answer : str;
  confidence : Q;
  metadata : option (list (str * str))
}.

(** The dataclass constructor: [confidence] defaults to [1.0]. *)
Definition new_QAPair (q a : str) (md : option (list (str * str))) : QAPair :=
  mkQAPair q a 1%Q md.

(** ** agents.py: TextProcessingAgent *)

Record TextProcessingAgent : Type := mkTextProcessingAgent {
  chunk_size : Z;
  overlap : Z
}.

(** [TextProcessingAgent()] with the defaults of [__init__]. *)
Definition default_TextProcessingAgent : TextProcessingAgent :=
  mkTextProcessingAgent 2000 200.

Inductive boundary : Type := paragraph | sentence | line.

(** The dict of break candidates of one window: each marker's [rfind]
    offset, mapped to the marker's name. *)
Definition break_candidates (window : str) : dict boundary :=
  dict_set
    (dict_set
       (dict_set [] (rfind window [nl; nl]) paragraph)
       (rfind window (lit ". ")) sentence)
    (rfind window [nl]) line.

(** Lines 30-43 of [create_chunks]: where the window that starts at
    [start] ends. *)
Definition window_end (text : str) (chunk_size start : Z) : result Z :=
  let end_ := start + chunk_size in
  if end_ <? len text then
    let candidates := break_candidates (slice text start end_) in
    match max_list (filter (fun point => negb (point =? -1)) (keys candidates)) with
    | None => Raise ValueError
    | Some break_point =>
        if negb (break_point =? -1) then Ok (start + break_point + 1)
        else Ok end_
    end
  else Ok end_.

(** The [while] loop of [create_chunks], from the state [(start, chunks)]. *)
Fixpoint create_chunks_loop (fuel : nat) (text : str) (chunk_size overlap : Z)
    (start : Z) (chunks : list str) : outcome (list str) :=
  match fuel with
  | O => OutOfFuel
  | S fuel' =>
      if start <? len text then
        match window_end text chunk_size start with
        | Raise e => Raised e
        | Ok end_ =>
            let chunk := strip (slice text start end_) in
            let chunks' := if truthy chunk then chunks ++ [chunk] else chunks in
            create_chunks_loop fuel' text chunk_size overlap (end_ - overlap) chunks'
        end
      else Returned chunks
  end.

Definition create_chunks (fuel : nat) (self : TextProcessingAgent) (text : str)
    : outcome (list str) :=
  create_chunks_loop fuel text (chunk_size self) (overlap self) 0 [].


(** ** prompts.py *)

Module Prompts.

Definition QA_GENERATION (text_content context_instruction : str) : str :=
  lit "You are a specialized AI trained to create high-quality question-answer pairs for training data.

Content to process:
" ++ text_content ++ lit "

Instructions:
- Create alot of possible diverse question-answer pairs from the given content
- Make sure to touch every part of the topic so that you don't miss any questions.
- Questions should test different aspects of understanding
- Ensure questions are clear and unambiguous
- Answers should be comprehensive but concise
- Focus on important information and key concepts
- Avoid redundant or trivial questions
" ++ context_instruction ++ lit "

Output Format Requirements:
- Each pair MUST start with 'Q1:', 'Q2:', or 'Q3:' for questions
- Each answer MUST start with 'A1:', 'A2:', or 'A3:' respectively
- Questions and answers MUST alternate (Q1, A1, Q2, A2, Q3, A3)
- Questions and answers MUST NOT be empty
- DO NOT include any additional formatting or text

Example Format:
Q1: What is the main concept discussed in the text?
A1: The main concept is...
Q2: How does the text explain...?
A2: The text explains this by...
Q3: What are the key implications of...?
A3: The key implications are...".

Definition CONTEXT_INSTRUCTION (context : str) : str :=
  lit "
Previous Context:
" ++ context ++ lit "
Consider this context while generating questions to maintain continuity and avoid repetition.".

Definition CHUNK_SUMMARY (chunk_text : str) : str :=
  lit "Create a brief summary of the following content that captures the key points and context. This will be used to maintain continuity between chunks.

Content:
" ++ chunk_text ++ lit "

Keep the summary focused on main ideas that might be relevant for the next section.".

Definition ERROR_RECOVERY (text_content context_instruction : str) : str :=
  lit "The previous attempt to generate QA pairs encountered an error. Please try again with the following content, focusing on simpler, more straightforward questions:

Content:
" ++ text_content ++ lit "

" ++ context_instruction.

Definition VALIDATION (qa_pairs : str) : str :=
  lit "Please validate the following question-answer pairs for quality and relevance:

" ++ qa_pairs ++ lit "

For each pair, verify:
1. Question clarity and specificity
2. Answer accuracy and completeness
3. Relevance to the source material

Provide feedback in the following format:
VALID: [true/false]
FEEDBACK: [specific issues if any]".

End Prompts.

(** ** The completion backend

    [client.chat.completions.create(...)] followed by
    [response.choices[0].message.content]: the reply's text, or nothing
    when the request raises.  A backend may answer differently each time,
    so it sees the prompts sent before. *)

Definition backend : Type := list str -> str -> option str.

(** One request: the prompt joins the log of requests. *)
Definition complete (b : backend) (sent : list str) (prompt : str)
    : list str * option str :=
  (sent ++ [prompt], b sent prompt).

(** ** agents.py: QAGenerationAgent *)

Definition question_prefixes : list str :=
  map lit ["Q1:"; "Q2:"; "Q3:"; "Q:"; "Question:"]%string.

Definition answer_prefixes : list str :=
  map lit ["A1:"; "A2:"; "A3:"; "A:"; "Answer:"]%string.

Definition colon : ascii := ascii_of_nat 58.

Definition source_type (v : string) : option (list (str * str)) :=
  Some [(lit "source_type", lit v)].

(** The variables of the scan of [_parse_qa_response]. *)
Record parse_state : Type := mkParseState {
  qa_pairs : list QAPair;
  current_question : option str;
  current_answer : option str
}.

(** [qa_pairs] with the pending pair appended when it is complete. *)
Definition flush_pair (st : parse_state) (source : string) : list QAPair :=
  match current_question st, current_answer st with
  | Some q, Some a => qa_pairs st ++ [new_QAPair q a (source_type source)]
  | _, _ => qa_pairs st
  end.

(** The body of the scan, for one line. *)
Definition parse_line (st : parse_state) (line : str) : parse_state :=
  if negb (truthy line) then st
  else if startswith_any line question_prefixes then
    mkParseState (flush_pair st "groq_llama2")
                 (Some (strip (split1_second colon line))) None
  else if startswith_any line answer_prefixes then
    let st' := mkParseState (qa_pairs st) (current_question st)
                            (Some (strip (split1_second colon line))) in
    match current_question st' with
    | Some _ => mkParseState (flush_pair st' "groq_llama2") None None
    | None => st'
    end
  else st.

(** The final filter of [_parse_qa_response]. *)
Definition well_formed_pair (pair : QAPair) : bool :=
  truthy (question pair) && truthy (answer pair)
  && (0 <? len (strip (question pair))) && (0 <? len (strip (answer pair))).

Definition _parse_qa_response (response_text : str) : list QAPair :=
  let lines :=
    map strip (filter (fun line => truthy (strip line))
                      (split nl (strip response_text))) in
  let st := fold_left parse_line lines (mkParseState [] None None) in
  filter well_formed_pair (flush_pair st "llama-3.1-70b-versatile").

(** The context block of the generation prompts. *)
Definition context_instruction_of (context : option str) : str :=
  match context with
  | Some c => if truthy c then Prompts.CONTEXT_INSTRUCTION c else []
  | None => []
  end.

(** The [for attempt in range(retry_count + 1)] loop of
    [generate_qa_pairs]; a loop that runs out of attempts falls off the
    end of the function, which returns [None]. *)
Fixpoint generate_attempts (b : backend) (attempts : list Z) (retry_count : Z)
    (chunk context_instruction prompt : str) (sent : list str)
    : list str * option (list QAPair) :=
  match attempts with
  | [] => (sent, None)
  | attempt :: rest =>
      match complete b sent prompt with
      | (sent', Some content) => (sent', Some (_parse_qa_response content))
      | (sent', None) =>
          if attempt =? retry_count then (sent', Some [])
          else generate_attempts b rest retry_count chunk context_instruction
                 (Prompts.ERROR_RECOVERY chunk context_instruction) sent'
      end
  end.

Definition generate_qa_pairs (b : backend) (chunk : str) (context : option str)
    (retry_count : Z) (sent : list str) : list str * option (list QAPair) :=
  let context_instruction := context_instruction_of context in
  let prompt := Prompts.QA_GENERATION chunk context_instruction in
  generate_attempts b (range (retry_count + 1)) retry_count
    chunk context_instruction prompt sent.

(** ** agents.py: ValidationAgent *)

Definition set_confidence (pair : QAPair) (c : Q) : QAPair :=
  mkQAPair (question pair) (answer pair) c (metadata pair).

(** The body of the loop of [_apply_validation_feedback]. *)
Definition apply_feedback_step (feedback : str) (validated_pairs : list QAPair)
    (pair : QAPair) : list QAPair :=
  let pair' :=
    if contains (lower feedback) (lit "VALID: true")
    then set_confidence pair 1%Q
    else set_confidence pair (1 # 2)%Q in
  validated_pairs ++ [pair'].

Definition _apply_validation_feedback (qa_pairs : list QAPair) (feedback : str)
    : list QAPair :=
  fold_left (apply_feedback_step feedback) qa_pairs [].

Definition qa_text_of (qa_pairs : list QAPair) : str :=
  join [nl]
    (map (fun pair => lit "Q: " ++ question pair ++ [nl] ++ lit "A: " ++ answer pair)
         qa_pairs).

Definition validate_qa_pairs (b : backend) (qa_pairs : list QAPair)
    (sent : list str) : list str * list QAPair :=
  let prompt := Prompts.VALIDATION (qa_text_of qa_pairs) in
  match complete b sent prompt with
  | (sent', Some feedback) => (sent', _apply_validation_feedback qa_pairs feedback)
  | (sent', None) => (sent', qa_pairs)
  end.

(** ** agents.py: ContextManager *)

Record ContextManager : Type := mkContextManager {
  context_history : list str
}.

(** [ContextManager(api_key)]: the history starts empty. *)
Definition new_ContextManager : ContextManager := mkContextManager [].

(** [history.pop(0)] when the history holds more than three entries. *)
Definition keep_recent (history : list str) : list str :=
  if 3 <? Z.of_nat (List.length history) then tl history else history.

Definition update_context (b : backend) (self : ContextManager) (chunk : str)
    (sent : list str) : list str * ContextManager * str :=
  match complete b sent (Prompts.CHUNK_SUMMARY chunk) with
  | (sent', Some summary) =>
      let history := keep_recent (context_history self ++ [summary]) in
      (sent', mkContextManager history, join (lit " ") history)
  | (sent', None) => (sent', self, slice_from chunk (-500))
  end.

(** ** main.py: DatasetGenerator *)

Record Stats : Type := mkStats {
  total_chunks : Z;
  total_qa_pairs : Z;
  failed_chunks : Z;
  high_confidence : Z;
  low_confidence : Z
}.

(** The counters as [__init__] sets them. *)
Definition initial_stats : Stats := mkStats 0 0 0 0 0.

(** [for pair in validated_pairs: ...] over the two validation counters. *)
Definition count_pair (st : Stats) (pair : QAPair) : Stats :=
  if negb (Qle_bool (confidence pair) (8 # 10))
  then mkStats (total_chunks st) (total_qa_pairs st) (failed_chunks st)
               (high_confidence st + 1) (low_confidence st)
  else mkStats (total_chunks st) (total_qa_pairs st) (failed_chunks st)
               (high_confidence st) (low_confidence st + 1).

Definition update_stats (st : Stats) (validated_pairs : list QAPair) : Stats :=
  let st' := mkStats (total_chunks st)
                     (total_qa_pairs st + Z.of_nat (List.length validated_pairs))
                     (failed_chunks st) (high_confidence st) (low_confidence st) in
  fold_left count_pair validated_pairs st'.

Definition incr_failed (st : Stats) : Stats :=
  mkStats (total_chunks st) (total_qa_pairs st) (failed_chunks st + 1)
          (high_confidence st) (low_confidence st).

Definition set_total_chunks (st : Stats) (n : Z) : Stats :=
  mkStats n (total_qa_pairs st) (failed_chunks st)
          (high_confidence st) (low_confidence st).

(** The records the chunk loop writes to the logger. *)
Inductive log_record : Type :=
| ProcessingChunk (i n : Z)
| ErrorProcessingChunk (i : Z) (e : exn).

(** [enumerate(xs, start)] *)
Fixpoint enumerate {A : Type} (xs : list A) (start : Z) : list (Z * A) :=
  match xs with
  | [] => []
  | x :: xs' => (start, x) :: enumerate xs' (start + 1)
  end.

Section Orchestrator.

(** The three agents the generator holds are reached through their
    methods only; [W] is whatever state they keep between calls (their
    clients, the context history).  Any of the calls may raise. *)
Variable W : Type.
Variable qa_generator : str -> option str -> W -> W * result (list QAPair).
Variable validator : list QAPair -> W -> W * result (list QAPair).
Variable context_manager : str -> W -> W * result str.

(** What the chunk loop reads and writes. *)
Record run : Type := mkRun {
  agents : W;
  stats : Stats;
  all_qa_pairs : list QAPair;
  context : option str;
  log : list log_record
}.

(** The [try] block of the chunk loop.  A statement that raises leaves
    the effects of the statements before it in place. *)
Definition chunk_body (chunk : str) (r : run) : run * result unit :=
  let (w1, generated) := qa_generator chunk (context r) (agents r) in
  match generated with
  | Raise e => (mkRun w1 (stats r) (all_qa_pairs r) (context r) (log r), Raise e)
  | Ok qa_pairs =>
      let (w2, validated) := validator qa_pairs w1 in
      match validated with
      | Raise e => (mkRun w2 (stats r) (all_qa_pairs r) (context r) (log r), Raise e)
      | Ok validated_pairs =>
          let stats' := update_stats (stats r) validated_pairs in
          let all' := all_qa_pairs r ++ validated_pairs in
          let (w3, updated) := context_manager chunk w2 in
          match updated with
          | Raise e => (mkRun w3 stats' all' (context r) (log r), Raise e)
          | Ok context' => (mkRun w3 stats' all' (Some context') (log r), Ok tt)
          end
      end
  end.

(** One iteration of the chunk loop: the [try] block and its handler. *)
Definition process_chunk (n : Z) (r : run) (ic : Z * str) : run :=
  let (i, chunk) := ic in
  let r0 := mkRun (agents r) (stats r) (all_qa_pairs r) (context r)
                  (log r ++ [ProcessingChunk i n]) in
  match chunk_body chunk r0 with
  | (r1, Ok _) => r1
  | (r1, Raise e) =>
      mkRun (agents r1) (incr_failed (stats r1)) (all_qa_pairs r1) (context r1)
            (log r1 ++ [ErrorProcessingChunk i e])
  end.

(** [for i, chunk in enumerate(chunks, 1)] with [n = len(chunks)]; the
    iterations are numbered from [first]. *)
Definition process_from (n first : Z) (chunks : list str) (r : run) : run :=
  fold_left (process_chunk n) (enumerate chunks first) r.

Definition process_chunks (chunks : list str) (r : run) : run :=
  process_from (Z.of_nat (List.length chunks)) 1 chunks r.

Record DatasetGenerator : Type := mkDatasetGenerator {
  text_processor : TextProcessingAgent;
  agents0 : W;
  stats0 : Stats
}.

(** [DatasetGenerator(api_key)]: the text processor is built with no
    arguments; the counters start at zero. *)
Definition new_DatasetGenerator (w : W) : DatasetGenerator :=
  mkDatasetGenerator default_TextProcessingAgent w initial_stats.

(** What [process_document] hands back: the pairs it saved with the
    counters, or the error of the outer handler. *)
Inductive status : Type :=
| Processed (st : Stats) (saved : list QAPair)
| ErrorProcessingDocument (e : exn).

(** [process_document]; [extracted] is what reading the input file gave
    (the text, or the exception of the reader).  The result carries the
    chunks the run worked on, the state after the run, and the status. *)
Definition process_document (fuel : nat) (self : DatasetGenerator)
    (extracted : result str) (chunk_size overlap : Z)
    : outcome (list str * run * status) :=
  let r := mkRun (agents0 self) (stats0 self) [] None [] in
  match extracted with
  | Raise e => Returned ([], r, ErrorProcessingDocument e)
  | Ok text =>
      match create_chunks fuel (text_processor self) text with
      | OutOfFuel => OutOfFuel
      | Raised e => Returned ([], r, ErrorProcessingDocument e)
      | Returned chunks =>
          let r0 := mkRun (agents r)
                          (set_total_chunks (stats r) (Z.of_nat (List.length chunks)))
                          (all_qa_pairs r) (context r) (log r) in
          let r' := process_chunks chunks r0 in
          Returned (chunks, r', Processed (stats r') (all_qa_pairs r'))
      end
  end.

End Orchestrator.

Arguments mkRun {W}.
Arguments agents {W}.
Arguments stats {W}.
Arguments all_qa_pairs {W}.
Arguments context {W}.
Arguments log {W}.
Arguments chunk_body {W}.
Arguments process_chunk {W}.
Arguments process_from {W}.
Arguments process_chunks {W}.
Arguments mkDatasetGenerator {W}.
Arguments text_processor {W}.
Arguments agents0 {W}.
Arguments stats0 {W}.
Arguments new_DatasetGenerator {W}.
Arguments process_document {W}.

(** *** The generator wired to the agents of [agents.py]

    The agents' state is the log of requests and the context manager. *)

Definition agents_state : Type := (list str * ContextManager)%type.

(** [self.qa_generator.generate_qa_pairs(chunk, context)], with the
    default [retry_count].  A [None] result makes the validator's
    iteration over it raise [TypeError]. *)
Definition groq_qa_generator (b : backend) (chunk : str) (context : option str)
    (w : agents_state) : agents_state * result (list QAPair) :=
  match generate_qa_pairs b chunk context 2 (fst w) with
  | (sent', Some pairs) => ((sent', snd w), Ok pairs)
  | (sent', None) => ((sent', snd w), Raise TypeError)
  end.

Definition groq_validator (b : backend) (pairs : list QAPair)
    (w : agents_state) : agents_state * result (list QAPair) :=
  let (sent', validated) := validate_qa_pairs b pairs (fst w) in
  ((sent', snd w), Ok validated).

Definition groq_context_manager (b : backend) (chunk : str)
    (w : agents_state) : agents_state * result str :=
  match update_context b (snd w) chunk (fst w) with
  | (sent', cm, ctx) => ((sent', cm), Ok ctx)
  end.

Definition groq_DatasetGenerator : DatasetGenerator agents_state :=
  new_DatasetGenerator ([], new_ContextManager).

Definition groq_process_document (b : backend) (fuel : nat)
    (extracted : result str) (chunk_size overlap : Z)
    : outcome (list str * run agents_state * status) :=
  process_document (groq_qa_generator b) (groq_validator b)
    (groq_context_manager b) fuel groq_DatasetGenerator extracted
    chunk_size overlap.

(** ** Observations on runs

    Definitions the properties below are stated with. *)

(** A string that [strip] leaves as it is. *)
Definition trimmed (s : str) : Prop := strip s = s.

(** No fuel is enough for [create_chunks] on this input. *)
Definition loops_forever (self : TextProcessingAgent) (text : str) : Prop :=
  forall fuel : nat, create_chunks fuel self text = OutOfFuel.

(** The window that starts at [start] makes the loop move forward: the
    next start lies beyond [start]. *)
Definition advances (text : str) (chunk_size overlap start : Z) : Prop :=
  match window_end text chunk_size start with
  | Ok end_ => start < end_ - overlap
  | Raise _ => True
  end.

(** The last [n] entries of a list. *)
Definition last_n {A : Type} (n : nat) (l : list A) : list A :=
  skipn (List.length l - n) l.

(** [update_context] called once per chunk, in order: the log of
    requests and the manager after the calls, and what each call
    returned. *)
Fixpoint update_contexts (b : backend) (self : ContextManager)
    (chunks : list str) (sent : list str)
    : list str * ContextManager * list str :=
  match chunks with
  | [] => (sent, self, [])
  | chunk :: rest =>
      match update_context b self chunk sent with
      | (sent', self', ctx) =>
          match update_contexts b self' rest sent' with
          | (sent'', self'', ctxs) => (sent'', self'', ctx :: ctxs)
          end
      end
  end.

(** The summaries the backend gave over those calls, oldest first. *)
Fixpoint summaries (b : backend) (chunks : list str) (sent : list str)
    : list str :=
  match chunks with
  | [] => []
  | chunk :: rest =>
      let prompt := Prompts.CHUNK_SUMMARY chunk in
      match b sent prompt with
      | Some summary => summary :: summaries b rest (sent ++ [prompt])
      | None => summaries b rest (sent ++ [prompt])
      end
  end.

(** The prompts of the successive attempts of [generate_qa_pairs]: the
    full prompt, then the recovery prompt once per retry. *)
Definition attempt_prompts (chunk context_instruction : str) (retry_count : Z)
    : list str :=
  Prompts.QA_GENERATION chunk context_instruction
  :: repeat (Prompts.ERROR_RECOVERY chunk context_instruction)
            (Z.to_nat retry_count).

(** Sent one after the other, each of these prompts fails. *)
Fixpoint all_fail (b : backend) (sent : list str) (prompts : list str) : bool :=
  match prompts with
  | [] => true
  | prompt :: rest =>
      match b sent prompt with
      | None => all_fail b (sent ++ [prompt]) rest
      | Some _ => false
      end
  end.

Definition raises {A : Type} (r : result A) : bool :=
  match r with
  | Raise _ => true
  | Ok _ => false
  end.

(** The chunk numbers of the "Processing chunk" records of a log. *)
Definition chunks_started (l : list log_record) : list Z :=
  flat_map (fun rec => match rec with
                       | ProcessingChunk i _ => [i]
                       | ErrorProcessingChunk _ _ => []
                       end) l.

(** Backends and agents used to exercise the model. *)

(** A backend whose every request raises. *)
Definition failing_backend : backend := fun _ _ => None.

(** A backend that answers every request with the same text. *)
Definition constant_backend (reply : string) : backend :=
  fun _ _ => Some (lit reply).

(** A backend whose n-th answer (counting from 0) is n times "x". *)
Definition counting_backend : backend :=
  fun sent _ => Some (repeat "x"%char (List.length sent)).

(** A generator whose call raises, with stateless agents around it. *)
Definition raising_generator (chunk : str) (context : option str) (w : unit)
    : unit * result (list QAPair) :=
  (w, Raise (OtherError 0)).

Definition echo_validator (pairs : list QAPair) (w : unit)
    : unit * result (list QAPair) :=
  (w, Ok pairs).

Definition echo_context_manager (chunk : str) (w : unit) : unit * result str :=
  (w, Ok chunk).

(** ** Further observations *)

(** [sub] occurs in [s] as a run of consecutive characters. *)
Definition substring (sub s : str) : Prop :=
  exists pre post : str, s = pre ++ sub ++ post.

(** The lines [_parse_qa_response] scans: the trimmed non-blank lines of
    the trimmed response. *)
Definition response_lines (response_text : str) : list str :=
  map strip (filter (fun line => truthy (strip line))
                    (split nl (strip response_text))).

Definition is_question_line (line : str) : bool :=
  startswith_any line question_prefixes.

Definition is_answer_line (line : str) : bool :=
  startswith_any line answer_prefixes.

(** The number of "Error processing chunk" records of a log. *)
Definition errors_logged (l : list log_record) : Z :=
  Z.of_nat (List.length
              (filter (fun rec => match rec with
                                  | ErrorProcessingChunk _ _ => true
                                  | ProcessingChunk _ _ => false
                                  end) l)).

(** A backend that answers every request with one question, its answer
    and a verdict. *)
Definition agreeable_backend : backend :=
  fun _ _ => Some (lit "Q: q" ++ [nl] ++ lit "A: a" ++ [nl] ++ lit "VALID: true").

(** * Properties *)

(** ** Strings *)

Lemma len_nonneg (s : str) : 0 <= len s.
Proof. unfold len. lia. Qed.

Lemma len_app (s t : str) : len (s ++ t) = len s + len t.
Proof. unfold len. rewrite length_app. lia. Qed.

Lemma startswith_cons_inv (s sub : str) (c : ascii) :
  startswith s (c :: sub) = true -> exists s', s = c :: s'.
Proof.
  destruct s as [|d s']; cbn; [discriminate|].
  intro H. apply andb_prop in H as [H _].
  apply Ascii.eqb_eq in H. subst d. now exists s'.
Qed.

Lemma startswith_nil_l (sub : str) :
  sub <> [] -> startswith [] sub = false.
Proof. destruct sub; [congruence | reflexivity]. Qed.

(** A string that contains [c :: sub] holds the character [c]. *)
Lemma contains_head_In (s sub : str) (c : ascii) :
  contains s (c :: sub) = true -> In c s.
Proof.
  induction s as [|d s IH]; cbn -[startswith]; intro H.
  - rewrite orb_false_r in H. now apply startswith_cons_inv in H as [s' Hs'].
  - apply orb_prop in H as [H|H].
    + apply startswith_cons_inv in H as [s' Hs']. injection Hs' as -> _. now left.
    + right. auto.
Qed.

(** No character of a lowered string is the capital V. *)
Lemma lower_char_not_V (c : ascii) : lower_char c <> "V"%char.
Proof.
  destruct c as [[] [] [] [] [] [] [] []]; vm_compute; discriminate.
Qed.

Lemma lower_has_no_V (s : str) : ~ In "V"%char (lower s).
Proof.
  unfold lower. rewrite in_map_iff. intros (c & Hc & _).
  now apply lower_char_not_V in Hc.
Qed.

(** The test of [_apply_validation_feedback] is false on every feedback:
    the text searched is lowered, the text searched for is not. *)
Lemma valid_marker_never_found (feedback : str) :
  contains (lower feedback) (lit "VALID: true") = false.
Proof.
  destruct (contains (lower feedback) (lit "VALID: true")) eqn:E; [|reflexivity].
  apply contains_head_In in E. now apply lower_has_no_V in E.
Qed.

(** [rfind] answers [-1] or a position of the string. *)
Lemma rfind_from_range (sub : str) :
  sub <> [] ->
  forall (s : str) (i best : Z),
    rfind_from s sub i best = best \/
    (i <= rfind_from s sub i best < i + len s).
Proof.
  intros Hsub s. induction s as [|c s IH]; intros i best.
  - cbn [rfind_from]. rewrite startswith_nil_l by assumption. now left.
  - cbn [rfind_from].
    assert (Hl : len (c :: s) = 1 + len s) by (unfold len; cbn [List.length]; lia).
    rewrite Hl. pose proof (len_nonneg s) as Hs.
    destruct (startswith (c :: s) sub).
    + destruct (IH (i + 1) i) as [E|E]; [rewrite E|]; right; lia.
    + destruct (IH (i + 1) best) as [E|E]; [now left | right; lia].
Qed.

Lemma rfind_range (s sub : str) :
  sub <> [] -> rfind s sub = -1 \/ 0 <= rfind s sub < len s.
Proof. intro H. apply (rfind_from_range sub H s 0 (-1)). Qed.

Lemma rfind_nil (sub : str) : sub <> [] -> rfind [] sub = -1.
Proof.
  intro H. destruct (rfind_range [] sub H) as [E|E]; [exact E|].
  unfold len in E. cbn in E. lia.
Qed.

(** ** The break point of a window *)

(** What [max] over the found keys of the candidates dict gives: nothing
    when no marker was found, else a found offset that no other found
    offset exceeds. *)
Lemma break_point_spec (p s l : Z) :
  -1 <= p -> -1 <= s -> -1 <= l ->
  match max_list (filter (fun point => negb (point =? -1))
          (keys (dict_set (dict_set (dict_set [] p paragraph) s sentence) l line))) with
  | None => p = -1 /\ s = -1 /\ l = -1
  | Some bp => bp <> -1 /\ bp = Z.max p (Z.max s l)
  end.
Proof.
  intros Hp Hs Hl. unfold dict_set, keys. cbn.
  repeat (match goal with
          | |- context [?a =? ?b] => is_var a; destruct (Z.eqb_spec a b); cbn
          end); lia.
Qed.

Definition marker_offsets (window : str) : list Z :=
  [rfind window [nl; nl]; rfind window (lit ". "); rfind window [nl]].

Lemma marker_offsets_lower (window : str) :
  -1 <= rfind window [nl; nl] /\ -1 <= rfind window (lit ". ")
  /\ -1 <= rfind window [nl].
Proof.
  repeat split;
    match goal with
    | |- -1 <= rfind ?w ?m =>
        destruct (rfind_range w m) as [E|E]; [discriminate | lia | lia]
    end.
Qed.

(** The candidates dict of a window yields the largest found offset. *)
Lemma window_break_point (window : str) :
  match max_list (filter (fun point => negb (point =? -1))
                         (keys (break_candidates window))) with
  | None => forall q, In q (marker_offsets window) -> q = -1
  | Some bp =>
      bp <> -1 /\ In bp (marker_offsets window)
      /\ forall q, In q (marker_offsets window) -> q <= bp
  end.
Proof.
  destruct (marker_offsets_lower window) as (Hp & Hs & Hl).
  pose proof (break_point_spec _ _ _ Hp Hs Hl) as H.
  unfold break_candidates, marker_offsets.
  destruct (max_list _) as [bp|].
  - destruct H as [Hne Hmax]. split; [exact Hne|]. split.
    + cbn [In]. lia.
    + intros q Hq. cbn [In] in Hq. lia.
  - intros q Hq. cbn [In] in Hq. lia.
Qed.

(** A window short of the end of the text with none of the three
    markers makes [max] raise: the generator it is given is empty. *)
Lemma window_end_raises_without_marker (text : str) (chunk_size start : Z) :
  start + chunk_size < len text ->
  (forall q, In q (marker_offsets (slice text start (start + chunk_size))) -> q = -1) ->
  window_end text chunk_size start = Raise ValueError.
Proof.
  intros Hend Hnone. unfold window_end.
  apply Z.ltb_lt in Hend. rewrite Hend. cbv zeta.
  pose proof (window_break_point (slice text start (start + chunk_size))) as H.
  destruct (max_list _) as [bp|]; [|reflexivity].
  destruct H as (Hne & Hin & _). now apply Hnone in Hin.
Qed.

(** ** C1: the validator's confidence policy *)

Lemma fold_apply_feedback_step (feedback : str) (qa_pairs acc : list QAPair) :
  fold_left (apply_feedback_step feedback) qa_pairs acc
  = acc ++ map (fun pair =>
                  set_confidence pair
                    (if contains (lower feedback) (lit "VALID: true")
                     then 1%Q else (1 # 2)%Q)) qa_pairs.
Proof.
  revert acc. induction qa_pairs as [|pair rest IH]; intro acc; cbn [fold_left map].
  - now rewrite app_nil_r.
  - rewrite IH. unfold apply_feedback_step. rewrite <- app_assoc. cbn [app].
    now destruct (contains (lower feedback) (lit "VALID: true")).
Qed.

(** The loop of [_apply_validation_feedback] as a map over the batch. *)
Lemma apply_validation_feedback_map (qa_pairs : list QAPair) (feedback : str) :
  _apply_validation_feedback qa_pairs feedback
  = map (fun pair =>
           set_confidence pair
             (if contains (lower feedback) (lit "VALID: true")
              then 1%Q else (1 # 2)%Q)) qa_pairs.
Proof. unfold _apply_validation_feedback. now rewrite fold_apply_feedback_step. Qed.

(** C1 (the code departs from the claim).  The claim: feedback that
    contains "valid: true" in any letter case gives every pair of the
    batch confidence 1.0, any other feedback gives 0.5.  The code lowers
    the feedback and then looks for the text "VALID: true", capitals
    included, which a lowered text never contains: whatever the feedback,
    every pair gets 0.5; in particular for the feedback "VALID: true". *)
Theorem apply_validation_feedback_always_half :
  (forall (qa_pairs : list QAPair) (feedback : str),
      _apply_validation_feedback qa_pairs feedback
      = map (fun pair => set_confidence pair (1 # 2)%Q) qa_pairs)
  /\ map confidence
       (_apply_validation_feedback [new_QAPair (lit "q") (lit "a") None]
                                   (lit "VALID: true"))
     = [(1 # 2)%Q].
Proof.
  split.
  - intros qa_pairs feedback. rewrite apply_validation_feedback_map.
    now rewrite valid_marker_never_found.
  - reflexivity.
Qed.

(** ** C2: a window without a marker *)

(** C2 (the code departs from the claim).  The claim: [create_chunks]
    never raises, and keeps a window that holds no marker at its full
    length.  On the text "aaaa" with chunk size 2 and overlap 0 the first
    window "aa" stops short of the end of the text and holds no marker,
    and the call raises [ValueError] instead (whatever the fuel). *)
Theorem create_chunks_raises_on_plain_window :
  forall fuel : nat,
    create_chunks (S fuel) (mkTextProcessingAgent 2 0) (lit "aaaa")
    = Raised ValueError.
Proof. intro fuel. reflexivity. Qed.

(** ** C6: the break point of a window *)

(** C6.  For a window that stops short of the end of the text and in
    which at least one of the three markers is found, the window is cut
    one character past the largest of the found [rfind] offsets (an
    offset of [-1], not found, is ignored), whichever marker it belongs
    to; the loop keeps the trimmed text up to there and moves on from
    that end. *)
Theorem window_end_snaps_to_largest_offset
    (text : str) (chunk_size start : Z) :
  start + chunk_size < len text ->
  (exists q, In q (marker_offsets (slice text start (start + chunk_size)))
             /\ q <> -1) ->
  exists break_point : Z,
    let window := slice text start (start + chunk_size) in
    In break_point (marker_offsets window)
    /\ break_point <> -1
    /\ (forall q, In q (marker_offsets window) -> q <> -1 -> q <= break_point)
    /\ window_end text chunk_size start = Ok (start + break_point + 1)
    /\ forall (fuel : nat) (overlap : Z) (chunks : list str),
        start < len text ->
        create_chunks_loop (S fuel) text chunk_size overlap start chunks
        = let chunk := strip (slice text start (start + break_point + 1)) in
          create_chunks_loop fuel text chunk_size overlap
            (start + break_point + 1 - overlap)
            (if truthy chunk then chunks ++ [chunk] else chunks).
Proof.
  intros Hend (q & Hq & Hqne).
  pose proof (window_break_point (slice text start (start + chunk_size))) as H.
  assert (Hwe : forall bp,
             max_list (filter (fun point => negb (point =? -1))
               (keys (break_candidates (slice text start (start + chunk_size)))))
             = Some bp -> bp <> -1 ->
             window_end text chunk_size start = Ok (start + bp + 1)).
  { intros bp Hbp Hne. unfold window_end.
    apply Z.ltb_lt in Hend. rewrite Hend. cbv zeta. rewrite Hbp.
    destruct (Z.eqb_spec bp (-1)); [contradiction | reflexivity]. }
  destruct (max_list _) as [bp|].
  - destruct H as (Hne & Hin & Hmax). exists bp. cbv zeta.
    repeat split; auto.
    intros fuel overlap chunks Hstart. cbn [create_chunks_loop].
    apply Z.ltb_lt in Hstart. rewrite Hstart.
    now rewrite (Hwe bp eq_refl Hne).
  - now apply H in Hq.
Qed.

(** C6 on the first window of a text of three short lines, chunk size 4:
    the only marker found is the newline at offset 2. *)
Lemma window_end_snaps_to_largest_offset_witness :
  exists break_point : Z,
    let text := lit "ab
cd
ef" in
    let window := slice text 0 (0 + 4) in
    In break_point (marker_offsets window)
    /\ break_point <> -1
    /\ (forall q, In q (marker_offsets window) -> q <> -1 -> q <= break_point)
    /\ window_end text 4 0 = Ok (0 + break_point + 1)
    /\ forall (fuel : nat) (overlap : Z) (chunks : list str),
        0 < len text ->
        create_chunks_loop (S fuel) text 4 overlap 0 chunks
        = let chunk := strip (slice text 0 (0 + break_point + 1)) in
          create_chunks_loop fuel text 4 overlap
            (0 + break_point + 1 - overlap)
            (if truthy chunk then chunks ++ [chunk] else chunks).
Proof.
  apply (window_end_snaps_to_largest_offset (lit "ab
cd
ef") 4 0).
  - vm_compute. reflexivity.
  - exists 2. split; [vm_compute; auto | discriminate].
Defined.

(** ** C8: what validation leaves alone *)

(** C8.  [validate_qa_pairs] returns as many pairs as it was given, in
    the same order, each with its question, answer and metadata as
    before; when the request to the backend fails, it returns the very
    pairs it was given, confidence included. *)
Theorem validate_qa_pairs_frame
    (b : backend) (qa_pairs : list QAPair) (sent : list str) :
  let validated := snd (validate_qa_pairs b qa_pairs sent) in
  List.length validated = List.length qa_pairs
  /\ map question validated = map question qa_pairs
  /\ map answer validated = map answer qa_pairs
  /\ map metadata validated = map metadata qa_pairs
  /\ (b sent (Prompts.VALIDATION (qa_text_of qa_pairs)) = None ->
      validated = qa_pairs).
Proof.
  unfold validate_qa_pairs, complete. cbv zeta.
  destruct (b sent (Prompts.VALIDATION (qa_text_of qa_pairs))) as [feedback|];
    cbn [snd].
  - rewrite apply_validation_feedback_map.
    rewrite length_map, !map_map. cbn [question answer metadata set_confidence].
    repeat split; try reflexivity. discriminate.
  - repeat split; reflexivity.
Qed.

(** C8 on a batch of one pair with confidence 0.75 and a backend whose
    request fails: the pair comes back as it was. *)
Lemma validate_qa_pairs_frame_witness :
  let qa_pairs := [mkQAPair (lit "q") (lit "a") (3 # 4) None] in
  let validated := snd (validate_qa_pairs failing_backend qa_pairs []) in
  List.length validated = List.length qa_pairs
  /\ map question validated = map question qa_pairs
  /\ map answer validated = map answer qa_pairs
  /\ map metadata validated = map metadata qa_pairs
  /\ validated = qa_pairs.
Proof.
  pose proof (validate_qa_pairs_frame failing_backend
                [mkQAPair (lit "q") (lit "a") (3 # 4) None] []) as H.
  cbv zeta in H. destruct H as (H1 & H2 & H3 & H4 & H5).
  cbv zeta. do 4 (split; [assumption|]). apply H5. reflexivity.
Defined.

(** ** C9: the window of recent summaries *)

Lemma last_n_short {A : Type} (n : nat) (l : list A) :
  (List.length l <= n)%nat -> last_n n l = l.
Proof.
  intro H. unfold last_n.
  replace (List.length l - n)%nat with 0%nat by lia. reflexivity.
Qed.

Lemma length_last_n {A : Type} (n : nat) (l : list A) :
  List.length (last_n n l) = Nat.min n (List.length l).
Proof. unfold last_n. rewrite length_skipn. lia. Qed.

(** Appending to the window and dropping the oldest on overflow gives
    the window of the longer list. *)
Lemma keep_recent_last_n (H : list str) (s : str) :
  keep_recent (last_n 3 H ++ [s]) = last_n 3 (H ++ [s]).
Proof.
  unfold keep_recent. rewrite length_app, length_last_n. cbn [List.length].
  destruct (Nat.le_gt_cases 3 (List.length H)) as [Hlen|Hlen].
  - replace (3 <? Z.of_nat (Nat.min 3 (List.length H) + 1)) with true
      by (symmetry; apply Z.ltb_lt; lia).
    unfold last_n. rewrite length_app. cbn [List.length].
    rewrite skipn_app.
    replace (List.length H + 1 - 3 - List.length H)%nat with 0%nat by lia.
    cbn [skipn].
    replace (List.length H + 1 - 3)%nat with (1 + (List.length H - 3))%nat by lia.
    rewrite <- skipn_skipn.
    destruct (skipn (List.length H - 3) H) as [|x r] eqn:E.
    + apply (f_equal (@List.length str)) in E. rewrite length_skipn in E.
      cbn in E. lia.
    + reflexivity.
  - replace (3 <? Z.of_nat (Nat.min 3 (List.length H) + 1)) with false
      by (symmetry; apply Z.ltb_ge; lia).
    rewrite !last_n_short; [reflexivity | rewrite length_app; cbn; lia | lia].
Qed.

(** The history after a run of calls is the window over everything
    summarised so far. *)
Lemma update_contexts_history (b : backend) (chunks : list str) :
  forall (self : ContextManager) (sent : list str) (H : list str),
    context_history self = last_n 3 H ->
    context_history (snd (fst (update_contexts b self chunks sent)))
    = last_n 3 (H ++ summaries b chunks sent).
Proof.
  induction chunks as [|chunk rest IH]; intros self sent H Hinv.
  - cbn. now rewrite app_nil_r.
  - cbn [update_contexts summaries]. unfold update_context, complete. cbv zeta.
    destruct (b sent (Prompts.CHUNK_SUMMARY chunk)) as [summary|].
    + specialize (IH (mkContextManager (keep_recent (context_history self ++ [summary])))
                     (sent ++ [Prompts.CHUNK_SUMMARY chunk]) (H ++ [summary])).
      destruct (update_contexts b _ rest _) as [[sent'' self''] ctxs].
      cbn [fst snd] in *. rewrite IH.
      * now rewrite <- app_assoc.
      * cbn [context_history]. rewrite Hinv. apply keep_recent_last_n.
    + specialize (IH self (sent ++ [Prompts.CHUNK_SUMMARY chunk]) H Hinv).
      destruct (update_contexts b self rest _) as [[sent'' self''] ctxs].
      cbn [fst snd] in *. exact IH.
Qed.

(** C9.  Start from a fresh context manager and call [update_context]
    once per chunk of [chunks], then once more on [chunk].  Before that
    last call the history is the (at most three) most recent summaries
    received so far, oldest first.  If the last request fails, the
    manager is unchanged and the end of the chunk is returned.  If it
    succeeds with [summary], the history becomes the most recent three
    of the summaries including it, never more than three entries, and
    the call returns the entries joined by single spaces; once three or
    more summaries were received that is exactly the last three, and no
    older one is kept. *)
Theorem update_context_keeps_three_most_recent
    (b : backend) (chunks : list str) (chunk : str) (sent : list str) :
  let before := update_contexts b new_ContextManager chunks sent in
  let sent1 := fst (fst before) in
  let cm1 := snd (fst before) in
  let after := update_context b cm1 chunk sent1 in
  let cm2 := snd (fst after) in
  let returned := snd after in
  context_history cm1 = last_n 3 (summaries b chunks sent)
  /\ (List.length (context_history cm2) <= 3)%nat
  /\ match b sent1 (Prompts.CHUNK_SUMMARY chunk) with
     | None => cm2 = cm1 /\ returned = slice_from chunk (-500)
     | Some summary =>
         context_history cm2 = last_n 3 (summaries b chunks sent ++ [summary])
         /\ returned = join (lit " ") (context_history cm2)
         /\ forall (older : list str) (s1 s2 s3 : str),
             summaries b chunks sent ++ [summary] = older ++ [s1; s2; s3] ->
             context_history cm2 = [s1; s2; s3]
             /\ returned = s1 ++ lit " " ++ s2 ++ lit " " ++ s3
     end.
Proof.
  cbv zeta.
  pose proof (update_contexts_history b chunks new_ContextManager sent []
                eq_refl) as Hinv.
  cbn [app] in Hinv.
  destruct (update_contexts b new_ContextManager chunks sent)
    as [[sent1 cm1] ctxs].
  cbn [fst snd] in *. split; [exact Hinv|].
  unfold update_context, complete.
  destruct (b sent1 (Prompts.CHUNK_SUMMARY chunk)) as [summary|]; cbn [fst snd].
  - cbn [context_history]. rewrite Hinv, keep_recent_last_n.
    split; [rewrite length_last_n; lia|].
    split; [reflexivity|]. split; [reflexivity|].
    intros older s1 s2 s3 E. rewrite E.
    assert (Hl : last_n 3 (older ++ [s1; s2; s3]) = [s1; s2; s3]).
    { unfold last_n. rewrite length_app. cbn [List.length].
      replace (List.length older + 3 - 3)%nat with (List.length older + 0)%nat by lia.
      now rewrite skipn_app, Nat.add_0_r, skipn_all, Nat.sub_diag. }
    rewrite Hl. split; reflexivity.
  - rewrite Hinv. split; [rewrite length_last_n; lia|]. split; reflexivity.
Qed.

(** C9 on four successful calls whose summaries are empty, "x", "xx" and
    "xxx": the first is gone, the last three are joined by spaces. *)
Lemma update_context_keeps_three_most_recent_witness :
  let chunk := lit "c" in
  let before := update_contexts counting_backend new_ContextManager
                  [chunk; chunk; chunk] [] in
  let after := update_context counting_backend (snd (fst before)) chunk
                 (fst (fst before)) in
  context_history (snd (fst after)) = [lit "x"; lit "xx"; lit "xxx"]
  /\ snd after = lit "x xx xxx".
Proof.
  pose proof (update_context_keeps_three_most_recent counting_backend
                [lit "c"; lit "c"; lit "c"] (lit "c") []) as H.
  cbv zeta in H. destruct H as (_ & _ & H).
  change (counting_backend
            (fst (fst (update_contexts counting_backend new_ContextManager
                         [lit "c"; lit "c"; lit "c"] [])))
            (Prompts.CHUNK_SUMMARY (lit "c")))
    with (Some (lit "xxx")) in H.
  destruct H as (_ & _ & H).
  exact (H [[]] (lit "x") (lit "xx") (lit "xxx") eq_refl).
Defined.

(** ** C7: the retry loop of the generator *)

(** The two generation prompts are never the same text. *)
Lemma generation_prompts_differ (chunk ci chunk' ci' : str) :
  Prompts.QA_GENERATION chunk ci <> Prompts.ERROR_RECOVERY chunk' ci'.
Proof. unfold Prompts.QA_GENERATION, Prompts.ERROR_RECOVERY. cbn. discriminate. Qed.

Lemma all_fail_nth (b : backend) (prompts : list str) :
  forall (sent : list str) (n : nat),
    all_fail b sent prompts = true ->
    (n < List.length prompts)%nat ->
    b (sent ++ firstn n prompts) (nth n prompts []) = None.
Proof.
  induction prompts as [|p rest IH]; intros sent n Hall Hn; cbn in Hn; [lia|].
  cbn [all_fail] in Hall. destruct (b sent p) eqn:E; [discriminate|].
  destruct n as [|n]; cbn [firstn nth].
  - now rewrite app_nil_r.
  - replace (sent ++ p :: firstn n rest) with ((sent ++ [p]) ++ firstn n rest)
      by now rewrite <- app_assoc.
    apply IH; [assumption | lia].
Qed.

Lemma all_fail_last (b : backend) (prompts : list str) :
  forall (sent : list str) (n : nat),
    List.length prompts = S n ->
    all_fail b sent (firstn n prompts) = true ->
    b (sent ++ firstn n prompts) (nth n prompts []) = None ->
    all_fail b sent prompts = true.
Proof.
  induction prompts as [|p rest IH]; intros sent n Hlen Hall Hlast;
    cbn in Hlen; [lia|].
  destruct n as [|n]; cbn [firstn nth all_fail] in *.
  - rewrite app_nil_r in Hlast. rewrite Hlast.
    destruct rest; [reflexivity | discriminate].
  - destruct (b sent p) eqn:E; [discriminate|].
    apply (IH (sent ++ [p]) n); [lia | assumption |].
    now rewrite <- app_assoc.
Qed.

Lemma generate_attempts_cons (b : backend) (attempt : Z) (rest : list Z)
    (retry_count : Z) (chunk ci prompt : str) (sent : list str) :
  generate_attempts b (attempt :: rest) retry_count chunk ci prompt sent
  = match b sent prompt with
    | Some content => (sent ++ [prompt], Some (_parse_qa_response content))
    | None =>
        if attempt =? retry_count then (sent ++ [prompt], Some [])
        else generate_attempts b rest retry_count chunk ci
               (Prompts.ERROR_RECOVERY chunk ci) (sent ++ [prompt])
    end.
Proof. cbn [generate_attempts]. unfold complete. now destruct (b sent prompt). Qed.

(** The loop over the attempts numbered [i .. i + m], the last of which
    is attempt [retry_count]: it stops at the first request that
    succeeds, or after the last one. *)
Lemma generate_attempts_spec (b : backend) (retry_count : Z) (chunk ci : str) :
  0 <= retry_count ->
  forall (m i : nat) (prompt : str) (sent : list str),
    (i + S m = Z.to_nat retry_count + 1)%nat ->
    let prompts := prompt :: repeat (Prompts.ERROR_RECOVERY chunk ci) m in
    exists (n : nat) (pairs : list QAPair),
      generate_attempts b (map Z.of_nat (seq i (S m))) retry_count chunk ci
                        prompt sent
      = (sent ++ firstn (S n) prompts, Some pairs)
      /\ (n <= m)%nat
      /\ all_fail b sent (firstn n prompts) = true
      /\ match b (sent ++ firstn n prompts) (nth n prompts []) with
         | Some content => pairs = _parse_qa_response content
         | None => n = m /\ pairs = []
         end.
Proof.
  intros Hrc m. induction m as [|m IH]; intros i prompt sent Hi prompts;
    subst prompts; rewrite <- cons_seq, map_cons, generate_attempts_cons;
    cbn [repeat]; destruct (b sent prompt) as [content|] eqn:E.
  - exists 0%nat, (_parse_qa_response content). cbn [firstn nth all_fail].
    rewrite app_nil_r, E. repeat split; auto.
  - replace (Z.of_nat i =? retry_count) with true
      by (symmetry; apply Z.eqb_eq; lia).
    exists 0%nat, []. cbn [firstn nth all_fail].
    rewrite app_nil_r, E. repeat split; auto.
  - exists 0%nat, (_parse_qa_response content). cbn [firstn nth all_fail].
    rewrite app_nil_r, E. repeat split; auto. lia.
  - replace (Z.of_nat i =? retry_count) with false
      by (symmetry; apply Z.eqb_neq; lia).
    destruct (IH (S i) (Prompts.ERROR_RECOVERY chunk ci) (sent ++ [prompt]))
      as (n & pairs & Hrun & Hn & Hall & Hlast); [lia|].
    exists (S n), pairs. rewrite Hrun.
    cbn [firstn nth all_fail]. rewrite E, <- !app_assoc. cbn [app].
    rewrite <- app_assoc in Hlast. cbn [app] in Hlast.
    repeat split; auto; try lia.
    change (match n with
            | 0%nat => Prompts.ERROR_RECOVERY chunk ci
            | S m0 => nth m0 (repeat (Prompts.ERROR_RECOVERY chunk ci) m) []
            end)
      with (nth n (Prompts.ERROR_RECOVERY chunk ci
                   :: repeat (Prompts.ERROR_RECOVERY chunk ci) m) []).
    revert Hlast.
    match goal with |- context [b ?x ?y] => destruct (b x y) end; [tauto|].
    intros [-> ->]. auto.
Qed.

(** C7, as the code has it.  For a retry count that is not negative,
    [generate_qa_pairs] always returns a list of pairs.  It sends at most
    [retry_count + 1] requests: the full generation prompt first, then
    the recovery prompt (a different text) for every retry, stopping at
    the first request that succeeds.  If every attempt fails the result
    is empty.  The converse does not hold in general: an empty result
    comes from all attempts failing or from a reply in which the parser
    finds no pair. *)
Theorem generate_qa_pairs_retries
    (b : backend) (chunk : str) (context : option str) (retry_count : Z)
    (sent : list str) :
  0 <= retry_count ->
  let ci := context_instruction_of context in
  let prompts := attempt_prompts chunk ci retry_count in
  exists (failed : nat) (pairs : list QAPair),
    generate_qa_pairs b chunk context retry_count sent
    = (sent ++ firstn (S failed) prompts, Some pairs)
    /\ Z.of_nat (S failed) <= retry_count + 1
    /\ Prompts.QA_GENERATION chunk ci <> Prompts.ERROR_RECOVERY chunk ci
    /\ all_fail b sent (firstn failed prompts) = true
    /\ match b (sent ++ firstn failed prompts) (nth failed prompts []) with
       | Some content => pairs = _parse_qa_response content
       | None => Z.of_nat failed = retry_count /\ pairs = []
       end
    /\ (all_fail b sent prompts = true -> pairs = [])
    /\ (pairs = [] ->
        all_fail b sent prompts = true
        \/ exists content,
            b (sent ++ firstn failed prompts) (nth failed prompts []) = Some content
            /\ _parse_qa_response content = []).
Proof.
  intros Hrc ci prompts.
  destruct (generate_attempts_spec b retry_count chunk ci Hrc
              (Z.to_nat retry_count) 0 (Prompts.QA_GENERATION chunk ci) sent)
    as (n & pairs & Hrun & Hn & Hall & Hlast); [lia|].
  fold (attempt_prompts chunk ci retry_count) in Hrun, Hall, Hlast.
  fold prompts in Hrun, Hall, Hlast.
  assert (Hlen : List.length prompts = S (Z.to_nat retry_count)).
  { subst prompts. unfold attempt_prompts. cbn [List.length].
    now rewrite repeat_length. }
  exists n, pairs. unfold generate_qa_pairs. fold ci. cbv zeta.
  replace (range (retry_count + 1))
    with (map Z.of_nat (seq 0 (S (Z.to_nat retry_count))))
    by (unfold range; do 2 f_equal; lia).
  split; [exact Hrun|]. split; [lia|].
  split; [apply generation_prompts_differ|]. split; [exact Hall|].
  split; [|split].
  - destruct (b _ _); [assumption|]. split; [lia | tauto].
  - intro Hfail. rewrite (all_fail_nth b prompts sent n Hfail) in Hlast by lia.
    tauto.
  - intro Hempty.
    destruct (b (sent ++ firstn n prompts) (nth n prompts [])) as [content|] eqn:E.
    + right. exists content. split; [reflexivity | congruence].
    + left. destruct Hlast as [-> _].
      apply (all_fail_last b prompts sent (Z.to_nat retry_count)); assumption.
Qed.

(** C7 with a retry count of 2 and a backend whose every request fails:
    three requests, the full prompt then the recovery prompt twice, and
    an empty result. *)
Lemma generate_qa_pairs_retries_witness :
  exists pairs : list QAPair,
    generate_qa_pairs failing_backend (lit "c") None 2 []
    = ([Prompts.QA_GENERATION (lit "c") [];
        Prompts.ERROR_RECOVERY (lit "c") [];
        Prompts.ERROR_RECOVERY (lit "c") []], Some pairs)
    /\ pairs = [].
Proof.
  destruct (generate_qa_pairs_retries failing_backend (lit "c") None 2 [])
    as (failed & pairs & Hrun & _ & _ & _ & _ & Hfail & _); [lia|].
  exists pairs. split.
  - rewrite Hrun.
    assert (E : pairs = []) by (apply Hfail; reflexivity).
    rewrite E in Hrun. rewrite E.
    change (generate_qa_pairs failing_backend (lit "c") None 2 [])
      with ([Prompts.QA_GENERATION (lit "c") [];
             Prompts.ERROR_RECOVERY (lit "c") [];
             Prompts.ERROR_RECOVERY (lit "c") []], Some (@nil QAPair)) in Hrun.
    now rewrite <- Hrun.
  - apply Hfail. reflexivity.
Defined.

(** C7, the claim as stated fails: with a backend whose first reply is
    the text "hello", the one request succeeds and the result is empty
    all the same, because the reply holds no question or answer line. *)
Lemma generate_qa_pairs_empty_without_failure :
  generate_qa_pairs (constant_backend "hello") (lit "c") None 2 []
  = ([Prompts.QA_GENERATION (lit "c") []], Some [])
  /\ all_fail (constant_backend "hello") []
       (attempt_prompts (lit "c") (context_instruction_of None) 2) = false.
Proof. split; reflexivity. Qed.

(** ** C10: a chunk that fails *)

Section ChunkLoop.

Context {W : Type}.
Variable qa_generator : str -> option str -> W -> W * result (list QAPair).
Variable validator : list QAPair -> W -> W * result (list QAPair).
Variable context_manager : str -> W -> W * result str.

Local Abbreviation body := (chunk_body qa_generator validator context_manager).
Local Abbreviation step := (process_chunk qa_generator validator context_manager).
Local Abbreviation loop := (process_from qa_generator validator context_manager).

Lemma failed_chunks_count_pair (st : Stats) (pair : QAPair) :
  failed_chunks (count_pair st pair) = failed_chunks st.
Proof. unfold count_pair. now destruct (negb _). Qed.

Lemma failed_chunks_update_stats (st : Stats) (pairs : list QAPair) :
  failed_chunks (update_stats st pairs) = failed_chunks st.
Proof.
  unfold update_stats.
  assert (H : forall st0, failed_chunks (fold_left count_pair pairs st0)
                          = failed_chunks st0).
  { induction pairs as [|p ps IH]; intro st0; cbn [fold_left]; [reflexivity|].
    now rewrite IH, failed_chunks_count_pair. }
  now rewrite H.
Qed.

(** The [try] block writes nothing to the log and leaves the count of
    failed chunks alone. *)
Lemma chunk_body_frame (chunk : str) (r : run W) :
  log (fst (body chunk r)) = log r
  /\ failed_chunks (stats (fst (body chunk r))) = failed_chunks (stats r).
Proof.
  unfold chunk_body.
  destruct (qa_generator chunk (context r) (agents r)) as [w1 [qa_pairs|e]];
    [|now split].
  destruct (validator qa_pairs w1) as [w2 [validated|e]]; [|now split].
  destruct (context_manager chunk w2) as [w3 [c|e]]; cbn [fst log stats];
    now rewrite failed_chunks_update_stats.
Qed.

(** One iteration adds one to the count of failed chunks when its [try]
    block raises, and nothing otherwise; either way it logs the chunk. *)
Lemma process_chunk_failed (n i : Z) (chunk : str) (r : run W) :
  let r0 := mkRun (agents r) (stats r) (all_qa_pairs r) (context r)
                  (log r ++ [ProcessingChunk i n]) in
  failed_chunks (stats (step n r (i, chunk)))
  = failed_chunks (stats r) + (if raises (snd (body chunk r0)) then 1 else 0)
  /\ chunks_started (log (step n r (i, chunk))) = chunks_started (log r) ++ [i].
Proof.
  cbv zeta. unfold process_chunk.
  pose proof (chunk_body_frame chunk
                (mkRun (agents r) (stats r) (all_qa_pairs r) (context r)
                       (log r ++ [ProcessingChunk i n]))) as [Hlog Hfail].
  destruct (body chunk _) as [r1 [u|e]]; cbn [fst snd raises] in *;
    cbn [stats log incr_failed failed_chunks] in *; rewrite Hlog.
  - split; [lia|]. unfold chunks_started. rewrite flat_map_app. reflexivity.
  - split; [lia|]. unfold chunks_started. rewrite !flat_map_app. cbn.
    now rewrite app_nil_r.
Qed.

Lemma enumerate_app {A : Type} (xs ys : list A) (start : Z) :
  enumerate (xs ++ ys) start
  = enumerate xs start ++ enumerate ys (start + Z.of_nat (List.length xs)).
Proof.
  revert start. induction xs as [|x xs IH]; intro start; cbn [app enumerate List.length].
  - now rewrite Z.add_0_r.
  - rewrite IH. do 3 f_equal. lia.
Qed.

(** The loop over [before ++ chunk :: after] is the loop over [after]
    from the state the iteration on [chunk] leaves. *)
Lemma process_from_split (n first : Z) (before : list str) (chunk : str)
    (after : list str) (r : run W) :
  loop n first (before ++ chunk :: after) r
  = loop n (first + Z.of_nat (List.length before) + 1) after
      (step n (loop n first before r)
            (first + Z.of_nat (List.length before), chunk)).
Proof.
  unfold process_from. rewrite enumerate_app, fold_left_app.
  cbn [enumerate fold_left]. reflexivity.
Qed.

(** The loop starts every chunk, in order. *)
Lemma process_from_started (n : Z) (chunks : list str) :
  forall (first : Z) (r : run W),
    chunks_started (log (loop n first chunks r))
    = chunks_started (log r) ++ map fst (enumerate chunks first).
Proof.
  induction chunks as [|chunk rest IH]; intros first r.
  - cbn. now rewrite app_nil_r.
  - unfold process_from in *. cbn [enumerate fold_left map fst].
    rewrite IH. destruct (process_chunk_failed n first chunk r) as [_ ->].
    now rewrite <- app_assoc.
Qed.

End ChunkLoop.

(** C10.  Whatever the agents, when the loop reaches a chunk whose [try]
    block raises (in the generator, the validator or the context
    manager), the iteration adds exactly one to [failed_chunks], and the
    run goes on with the chunks after it from the state so reached: the
    whole run starts every chunk of the document, in order. *)
Theorem failed_chunk_is_counted_and_skipped
    (W : Type)
    (qa_generator : str -> option str -> W -> W * result (list QAPair))
    (validator : list QAPair -> W -> W * result (list QAPair))
    (context_manager : str -> W -> W * result str)
    (before : list str) (chunk : str) (after : list str) (r : run W) :
  let chunks := before ++ chunk :: after in
  let n := Z.of_nat (List.length chunks) in
  let i := 1 + Z.of_nat (List.length before) in
  let r1 := process_from qa_generator validator context_manager n 1 before r in
  let r2 := process_chunk qa_generator validator context_manager n r1 (i, chunk) in
  raises (snd (chunk_body qa_generator validator context_manager chunk
                 (mkRun (agents r1) (stats r1) (all_qa_pairs r1) (context r1)
                        (log r1 ++ [ProcessingChunk i n])))) = true ->
  failed_chunks (stats r2) = failed_chunks (stats r1) + 1
  /\ process_chunks qa_generator validator context_manager chunks r
     = process_from qa_generator validator context_manager n (i + 1) after r2
  /\ chunks_started
       (log (process_chunks qa_generator validator context_manager chunks r))
     = chunks_started (log r) ++ map fst (enumerate chunks 1).
Proof.
  cbv zeta. intro Hraise. split; [|split].
  - destruct (process_chunk_failed qa_generator validator context_manager
                (Z.of_nat (List.length (before ++ chunk :: after)))
                (1 + Z.of_nat (List.length before)) chunk
                (process_from qa_generator validator context_manager
                   (Z.of_nat (List.length (before ++ chunk :: after))) 1 before r))
      as [-> _].
    cbv zeta. now rewrite Hraise.
  - unfold process_chunks. apply process_from_split.
  - unfold process_chunks. apply process_from_started.
Qed.

(** C10 with a generator that raises on every chunk: each chunk is
    started and counted as failed. *)
Lemma failed_chunk_is_counted_and_skipped_witness :
  let r := mkRun tt initial_stats [] None [] in
  let run_ := process_chunks raising_generator echo_validator
                echo_context_manager in
  failed_chunks (stats (run_ [lit "x"] r)) = 1
  /\ failed_chunks (stats (run_ [lit "x"; lit "y"] r)) = 2
  /\ chunks_started (log (run_ [lit "x"; lit "y"] r)) = [1; 2].
Proof.
  cbv zeta.
  destruct (failed_chunk_is_counted_and_skipped unit raising_generator
              echo_validator echo_context_manager [] (lit "x") [lit "y"]
              (mkRun tt initial_stats [] None []) eq_refl)
    as (H1 & H2 & H3).
  cbn [app] in H2, H3.
  split; [reflexivity|]. split; [rewrite H2; reflexivity | exact H3].
Defined.

(** ** C4: the chunk size and the overlap of [process_document] *)

(** C4 (the code departs from the claim).  The claim: the text is
    chunked with the [chunk_size] and [overlap] given to
    [process_document].  The code never reads the two arguments: the text
    processor was built with its defaults (2000 and 200), so the result
    is the same whatever they are.  On a text of three short lines, with
    chunk size 4 and overlap 0 (which would give the three lines as
    chunks), the document is processed as one chunk. *)
Theorem process_document_ignores_chunk_arguments :
  (forall (W : Type)
          (qa_generator : str -> option str -> W -> W * result (list QAPair))
          (validator : list QAPair -> W -> W * result (list QAPair))
          (context_manager : str -> W -> W * result str)
          (fuel : nat) (self : DatasetGenerator W) (extracted : result str)
          (chunk_size overlap chunk_size' overlap' : Z),
      process_document qa_generator validator context_manager fuel self
        extracted chunk_size overlap
      = process_document qa_generator validator context_manager fuel self
          extracted chunk_size' overlap')
  /\ (let text := lit "ab
cd
ef" in
      create_chunks 10 (mkTextProcessingAgent 4 0) text
      = Returned [lit "ab"; lit "cd"; lit "ef"]
      /\ exists (r : run agents_state) (st : status),
          groq_process_document failing_backend 10 (Ok text) 4 0
          = Returned ([text], r, st)
          /\ total_chunks (stats r) = 1).
Proof.
  split; [reflexivity|]. cbv zeta. split; [reflexivity|].
  eexists. eexists. split; [vm_compute; reflexivity | reflexivity].
Qed.

(** ** C3: termination of the chunk loop *)

(** A slice of [k] positions holds at most [k] characters. *)
Lemma slice_length_le (s : str) (a k : Z) :
  0 <= k -> len (slice s a (a + k)) <= k.
Proof.
  intro Hk. unfold slice, len. rewrite length_firstn.
  unfold clamp_index.
  destruct (a <? 0) eqn:Ea, (a + k <? 0) eqn:Eb;
    try apply Z.ltb_lt in Ea; try apply Z.ltb_ge in Ea;
    try apply Z.ltb_lt in Eb; try apply Z.ltb_ge in Eb; lia.
Qed.

Lemma marker_offsets_upper (window : str) (q : Z) :
  In q (marker_offsets window) -> -1 <= q < len window.
Proof.
  pose proof (len_nonneg window) as Hlen.
  unfold marker_offsets. cbn [In]. intros [<-|[<-|[<-|[]]]];
    match goal with
    | |- -1 <= rfind ?w ?m < _ =>
        destruct (rfind_range w m) as [E|E]; [discriminate | lia | lia]
    end.
Qed.

(** Where a window ends: at [start + chunk_size], or one past a found
    offset of the window. *)
Lemma window_end_cases (text : str) (chunk_size start end_ : Z) :
  window_end text chunk_size start = Ok end_ ->
  end_ = start + chunk_size
  \/ (start + chunk_size < len text
      /\ exists bp, end_ = start + bp + 1
                    /\ 0 <= bp < len (slice text start (start + chunk_size))).
Proof.
  unfold window_end.
  destruct (start + chunk_size <? len text) eqn:E; [|left; congruence].
  apply Z.ltb_lt in E. cbv zeta.
  pose proof (window_break_point (slice text start (start + chunk_size))) as H.
  destruct (max_list _) as [bp|]; [|discriminate].
  destruct H as (Hne & Hin & _). apply marker_offsets_upper in Hin.
  destruct (Z.eqb_spec bp (-1)); [contradiction|]. cbn [negb].
  intro Hok. injection Hok as <-. right. split; [exact E|].
  exists bp. split; [reflexivity | lia].
Qed.

Lemma window_end_le (text : str) (chunk_size start end_ : Z) :
  0 <= chunk_size ->
  window_end text chunk_size start = Ok end_ -> end_ <= start + chunk_size.
Proof.
  intros Hcs H. apply window_end_cases in H as [->|(_ & bp & -> & Hbp)]; [lia|].
  pose proof (slice_length_le text start chunk_size Hcs). lia.
Qed.

Lemma window_end_gt (text : str) (chunk_size start end_ : Z) :
  1 <= chunk_size ->
  window_end text chunk_size start = Ok end_ -> start < end_.
Proof.
  intros Hcs H. apply window_end_cases in H as [->|(_ & bp & -> & Hbp)]; lia.
Qed.

(** With an overlap that is at least the chunk size the start never
    moves forward, so the loop never reaches the end of the text. *)
Lemma create_chunks_loop_stalls (text : str) (chunk_size overlap : Z) :
  0 < len text -> 0 <= chunk_size <= overlap ->
  forall (fuel : nat) (start : Z) (chunks0 chunks : list str),
    start <= 0 ->
    create_chunks_loop fuel text chunk_size overlap start chunks0
    <> Returned chunks.
Proof.
  intros Hlen Hcs fuel. induction fuel as [|fuel IH];
    intros start chunks0 chunks Hstart; cbn [create_chunks_loop]; [discriminate|].
  replace (start <? len text) with true by (symmetry; apply Z.ltb_lt; lia).
  destruct (window_end text chunk_size start) as [end_|e] eqn:E; [|discriminate].
  apply IH. apply window_end_le in E; lia.
Qed.

(** When every window moves the start forward, the loop is over after at
    most as many iterations as the text has characters. *)
Lemma create_chunks_loop_terminates (text : str) (chunk_size overlap : Z) :
  (forall start, 0 <= start < len text ->
                 advances text chunk_size overlap start) ->
  forall (fuel : nat) (start : Z) (chunks0 : list str),
    0 <= start ->
    Z.max 0 (len text - start) < Z.of_nat fuel ->
    create_chunks_loop fuel text chunk_size overlap start chunks0 <> OutOfFuel.
Proof.
  intros Hadv fuel. induction fuel as [|fuel IH];
    intros start chunks0 Hstart Hfuel; [lia|].
  cbn [create_chunks_loop].
  destruct (Z.ltb_spec start (len text)) as [Hlt|Hge]; [|discriminate].
  specialize (Hadv start (conj Hstart Hlt)). unfold advances in Hadv.
  destruct (window_end text chunk_size start) as [end_|e]; [|discriminate].
  apply IH; lia.
Qed.

Lemma advances_without_overlap (text : str) (chunk_size overlap start : Z) :
  1 <= chunk_size -> overlap <= 0 -> advances text chunk_size overlap start.
Proof.
  intros Hcs Hov. unfold advances.
  destruct (window_end text chunk_size start) as [end_|e] eqn:E; [|exact I].
  apply window_end_gt in E; lia.
Qed.

(** C3, as the code has it.  [create_chunks] has no check of its
    configuration and no error for it.  On a non-empty text, with an
    overlap that is at least the chunk size (itself not negative), it
    never returns, whatever the fuel.  When every window start within
    the text moves forward (the end of the window less the overlap lies
    beyond the start), the loop is over within [len(text) + 1]
    iterations; that is so in particular for a chunk size of at least 1
    and an overlap of at most 0. *)
Theorem create_chunks_termination (self : TextProcessingAgent) (text : str) :
  (text <> [] -> 0 <= chunk_size self <= overlap self ->
   forall (fuel : nat) (chunks : list str),
     create_chunks fuel self text <> Returned chunks)
  /\ ((forall start, 0 <= start < len text ->
                     advances text (chunk_size self) (overlap self) start) ->
      create_chunks (S (List.length text)) self text <> OutOfFuel)
  /\ (1 <= chunk_size self -> overlap self <= 0 ->
      forall start, advances text (chunk_size self) (overlap self) start).
Proof.
  split; [|split].
  - intros Hne Hcs fuel chunks. unfold create_chunks.
    apply create_chunks_loop_stalls; try lia.
    destruct text; [congruence|]. unfold len. cbn [List.length]. lia.
  - intro Hadv. unfold create_chunks.
    apply create_chunks_loop_terminates; try assumption; unfold len; lia.
  - intros Hcs Hov start. now apply advances_without_overlap.
Qed.

(** C3 on the text "a" with chunk size and overlap 1, which never
    returns, and on three short lines with chunk size 4 and overlap 0,
    where nine iterations are enough. *)
Lemma create_chunks_termination_witness :
  (forall (fuel : nat) (chunks : list str),
      create_chunks fuel (mkTextProcessingAgent 1 1) (lit "a") <> Returned chunks)
  /\ create_chunks 9 (mkTextProcessingAgent 4 0) (lit "ab
cd
ef") <> OutOfFuel.
Proof.
  split.
  - apply (create_chunks_termination (mkTextProcessingAgent 1 1) (lit "a"));
      cbn; [discriminate | lia].
  - destruct (create_chunks_termination (mkTextProcessingAgent 4 0) (lit "ab
cd
ef")) as (_ & Hterm & Hadv).
    apply Hterm. intros start _. apply Hadv; cbn; lia.
Defined.

Lemma create_chunks_loop_same_size_overlap (fuel : nat) :
  forall chunks0 : list str,
    create_chunks_loop fuel (lit "a") 1 1 0 chunks0 = OutOfFuel.
Proof.
  induction fuel as [|fuel IH]; intro chunks0; [reflexivity|].
  change (create_chunks_loop (S fuel) (lit "a") 1 1 0 chunks0)
    with (create_chunks_loop fuel (lit "a") 1 1 0 (chunks0 ++ [lit "a"])).
  apply IH.
Qed.

(** C3, the claim as stated fails: on the text "a" with chunk size 1 and
    overlap 1 the call raises no error; each iteration appends the chunk
    "a" and starts again at 0, and no amount of fuel ends the loop. *)
Lemma create_chunks_stalls_when_overlap_is_chunk_size :
  loops_forever (mkTextProcessingAgent 1 1) (lit "a").
Proof.
  intro fuel. unfold create_chunks. apply create_chunks_loop_same_size_overlap.
Qed.

(** ** What [strip] removes *)

Lemma lstrip_decompose (s : str) :
  exists l, s = l ++ lstrip s /\ Forall (fun c => isspace c = true) l.
Proof.
  induction s as [|c s (l & Hs & Hl)].
  - now exists [].
  - cbn [lstrip]. destruct (isspace c) eqn:E.
    + exists (c :: l). split; [cbn; now rewrite <- Hs | now constructor].
    + now exists [].
Qed.

(** [strip] removes a run of whitespace at each end and nothing else. *)
Lemma strip_decompose (s : str) :
  exists l r, s = l ++ strip s ++ r
              /\ Forall (fun c => isspace c = true) l
              /\ Forall (fun c => isspace c = true) r.
Proof.
  destruct (lstrip_decompose s) as (l & Hs & Hl).
  destruct (lstrip_decompose (rev (lstrip s))) as (r & Hr & Hrsp).
  exists l, (rev r). split; [|split; [assumption | now apply Forall_rev]].
  unfold strip, rstrip. rewrite <- rev_app_distr, <- Hr, rev_involutive.
  exact Hs.
Qed.

Lemma lstrip_idempotent (s : str) : lstrip (lstrip s) = lstrip s.
Proof.
  induction s as [|c s IH]; [reflexivity|].
  cbn [lstrip]. destruct (isspace c) eqn:E; [exact IH|].
  cbn [lstrip]. now rewrite E.
Qed.

Lemma lstrip_app_nonspace (s : str) (c : ascii) :
  isspace c = false -> lstrip (s ++ [c]) = lstrip s ++ [c].
Proof.
  intro Hc. induction s as [|d s IH]; cbn [app lstrip].
  - now rewrite Hc.
  - now destruct (isspace d).
Qed.

Lemma lstrip_fixed_cases (s : str) :
  lstrip s = s -> s = [] \/ exists c t, s = c :: t /\ isspace c = false.
Proof.
  destruct s as [|c t]; [now left|]. intro H. right. exists c, t.
  split; [reflexivity|]. cbn [lstrip] in H.
  destruct (isspace c) eqn:E; [|reflexivity].
  destruct (lstrip_decompose t) as (l & Ht & _).
  apply (f_equal (@List.length ascii)) in H, Ht.
  rewrite length_app in Ht. cbn [List.length] in H. lia.
Qed.

(** What [strip] returns, [strip] leaves as it is. *)
Lemma strip_trimmed (s : str) : trimmed (strip s).
Proof.
  unfold trimmed, strip at 1.
  assert (Hl : lstrip (strip s) = strip s).
  { unfold strip, rstrip.
    destruct (lstrip_fixed_cases (lstrip s) (lstrip_idempotent s))
      as [->|(c & t & -> & Hc)]; [reflexivity|].
    cbn [rev]. rewrite (lstrip_app_nonspace _ _ Hc), rev_app_distr.
    cbn [rev app lstrip]. now rewrite Hc. }
  rewrite Hl. unfold strip, rstrip.
  now rewrite rev_involutive, lstrip_idempotent.
Qed.

(** ** C5: a window cut within the overlap *)

(** When the first window is cut exactly [overlap] characters in, the
    next start is 0 again and the loop never leaves it. *)
Lemma create_chunks_loop_returns_to_start (text : str)
    (chunk_size overlap : Z) :
  0 < len text ->
  window_end text chunk_size 0 = Ok overlap ->
  forall (fuel : nat) (chunks0 : list str),
    create_chunks_loop fuel text chunk_size overlap 0 chunks0 = OutOfFuel.
Proof.
  intros Hlen Hend fuel. induction fuel as [|fuel IH]; intro chunks0;
    cbn [create_chunks_loop]; [reflexivity|].
  replace (0 <? len text) with true by (symmetry; apply Z.ltb_lt; exact Hlen).
  rewrite Hend. cbv zeta. rewrite Z.sub_diag. apply IH.
Qed.

(** C5 (the code departs from the claim).  The claim: for a non-empty
    text, a chunk size of at least 1 and an overlap from 0 to below the
    chunk size, the chunks [create_chunks] returns, taken in order, cover
    the text, each non-empty after trimming.  On such inputs the call
    may never return at all.  Whenever the first window is cut exactly
    [overlap] characters in, the loop starts again at 0 and no fuel ends
    it.  That happens on a newline followed by "aaaa" with chunk size 3
    and overlap 1, and, with the default chunk size 2000 and overlap 200,
    on 199 letters, a newline and 3000 more letters. *)
Theorem create_chunks_hangs_on_early_break :
  (forall (self : TextProcessingAgent) (text : str),
      text <> [] ->
      window_end text (chunk_size self) 0 = Ok (overlap self) ->
      loops_forever self text)
  /\ loops_forever (mkTextProcessingAgent 3 1) (nl :: lit "aaaa")
  /\ loops_forever default_TextProcessingAgent
       (repeat "a"%char 199 ++ nl :: repeat "a"%char 3000).
Proof.
  assert (Hgen : forall (self : TextProcessingAgent) (text : str),
             text <> [] ->
             window_end text (chunk_size self) 0 = Ok (overlap self) ->
             loops_forever self text).
  { intros self text Hne Hend fuel. unfold create_chunks.
    apply create_chunks_loop_returns_to_start; [|exact Hend].
    destruct text; [congruence|]. unfold len. cbn [List.length]. lia. }
  split; [exact Hgen|]. split.
  - apply Hgen; [discriminate | reflexivity].
  - apply Hgen; [discriminate | vm_compute; reflexivity].
Qed.

(** * Further properties of the code *)

(** ** create_chunks, for every configuration *)

Lemma substring_trans (a b c : str) :
  substring a b -> substring b c -> substring a c.
Proof.
  intros (p1 & q1 & ->) (p2 & q2 & ->). exists (p2 ++ p1), (q1 ++ q2).
  now rewrite <- !app_assoc.
Qed.

Lemma slice_substring (s : str) (start stop : Z) :
  substring (slice s start stop) s.
Proof.
  unfold slice.
  set (lo := Z.to_nat (clamp_index (len s) start)).
  set (k := Z.to_nat (clamp_index (len s) stop - clamp_index (len s) start)).
  exists (firstn lo s), (skipn k (skipn lo s)).
  now rewrite firstn_skipn, firstn_skipn.
Qed.

Lemma strip_substring (s : str) : substring (strip s) s.
Proof. destruct (strip_decompose s) as (l & r & H & _). now exists l, r. Qed.

Lemma strip_length_le (s : str) : len (strip s) <= len s.
Proof.
  destruct (strip_decompose s) as (l & r & H & _).
  rewrite H at 2. rewrite !len_app.
  pose proof (len_nonneg l). pose proof (len_nonneg r). lia.
Qed.

(** The chunk of one iteration, whatever the state. *)
Lemma loop_chunk_invariant (P : str -> Prop) (text : str)
    (chunk_size overlap : Z) :
  (forall start end_,
      window_end text chunk_size start = Ok end_ ->
      truthy (strip (slice text start end_)) = true ->
      P (strip (slice text start end_))) ->
  forall (fuel : nat) (start : Z) (chunks0 chunks : list str),
    Forall P chunks0 ->
    create_chunks_loop fuel text chunk_size overlap start chunks0
    = Returned chunks ->
    Forall P chunks.
Proof.
  intros Hstep fuel. induction fuel as [|fuel IH];
    intros start chunks0 chunks Hok; cbn [create_chunks_loop]; [discriminate|].
  destruct (start <? len text).
  - destruct (window_end text chunk_size start) as [end_|e] eqn:E;
      [|discriminate].
    cbv zeta. apply IH.
    destruct (truthy (strip (slice text start end_))) eqn:Et; [|exact Hok].
    apply Forall_app. split; [exact Hok|]. constructor; [|constructor].
    now apply Hstep.
  - intro H. now injection H as <-.
Qed.

(** X1.  Whatever the chunk size and the overlap, negative ones
    included, every chunk [create_chunks] returns is non-empty, has no
    whitespace at either end, and occurs in the text as a run of
    consecutive characters. *)
Theorem create_chunks_returns_trimmed_substrings
    (self : TextProcessingAgent) (text : str) (fuel : nat)
    (chunks : list str) :
  create_chunks fuel self text = Returned chunks ->
  Forall (fun chunk => chunk <> [] /\ trimmed chunk /\ substring chunk text)
         chunks.
Proof.
  unfold create_chunks.
  apply loop_chunk_invariant; [|constructor].
  intros start end_ _ Ht. split; [|split].
  - destruct (strip _); [discriminate | congruence].
  - apply strip_trimmed.
  - eapply substring_trans; [apply strip_substring | apply slice_substring].
Qed.

(** X1 on three short lines with chunk size 4 and overlap 1. *)
Lemma create_chunks_returns_trimmed_substrings_witness :
  Forall (fun chunk => chunk <> [] /\ trimmed chunk
                       /\ substring chunk (lit "ab
cd
ef"))
         [lit "ab"; lit "cd"; lit "ef"].
Proof.
  apply (create_chunks_returns_trimmed_substrings (mkTextProcessingAgent 4 1)
           (lit "ab
cd
ef") 10).
  reflexivity.
Defined.

(** X2.  With a chunk size that is not negative, no returned chunk is
    longer than the chunk size. *)
Theorem create_chunks_chunk_length
    (self : TextProcessingAgent) (text : str) (fuel : nat)
    (chunks : list str) :
  0 <= chunk_size self ->
  create_chunks fuel self text = Returned chunks ->
  Forall (fun chunk => len chunk <= chunk_size self) chunks.
Proof.
  intro Hcs. unfold create_chunks.
  apply loop_chunk_invariant; [|constructor].
  intros start end_ E _.
  pose proof (strip_length_le (slice text start end_)) as Hs.
  apply window_end_cases in E as [->|(_ & bp & -> & Hbp)].
  - pose proof (slice_length_le text start (chunk_size self) Hcs). lia.
  - pose proof (slice_length_le text start (chunk_size self) Hcs).
    replace (start + bp + 1) with (start + (bp + 1)) in * by lia.
    pose proof (slice_length_le text start (bp + 1)). lia.
Qed.

(** X2 on three short lines with chunk size 4 and overlap 1. *)
Lemma create_chunks_chunk_length_witness :
  Forall (fun chunk => len chunk <= 4) [lit "ab"; lit "cd"; lit "ef"].
Proof.
  apply (create_chunks_chunk_length (mkTextProcessingAgent 4 1) (lit "ab
cd
ef") 10).
  - cbn. lia.
  - reflexivity.
Defined.

(** ** create_chunks on texts that fit in one window *)

Lemma slice_whole (text : str) (stop : Z) :
  len text <= stop -> slice text 0 stop = text.
Proof.
  intro H. pose proof (len_nonneg text) as Hl. unfold slice, clamp_index.
  replace (0 <? 0) with false by reflexivity.
  replace (stop <? 0) with false by (symmetry; apply Z.ltb_ge; lia).
  rewrite (Z.min_l 0), (Z.min_r stop) by lia. cbn [Z.to_nat skipn].
  apply firstn_all2. unfold len. lia.
Qed.

Lemma slice_to_end (text : str) (start stop : Z) :
  0 <= start -> len text <= stop ->
  slice text start stop = slice_from text start.
Proof.
  intros Hs He. pose proof (len_nonneg text) as Hl.
  unfold slice, slice_from, clamp_index.
  replace (start <? 0) with false by (symmetry; apply Z.ltb_ge; lia).
  replace (stop <? 0) with false by (symmetry; apply Z.ltb_ge; lia).
  rewrite (Z.min_r stop) by lia.
  apply firstn_all2. rewrite length_skipn. unfold len. lia.
Qed.

Lemma window_end_last (text : str) (chunk_size start : Z) :
  len text <= start + chunk_size ->
  window_end text chunk_size start = Ok (start + chunk_size).
Proof.
  intro H. unfold window_end.
  now replace (start + chunk_size <? len text) with false
    by (symmetry; apply Z.ltb_ge; lia).
Qed.

(** X3.  A text no longer than the chunk size, and no longer than the
    chunk size less the overlap, comes back as one chunk, the trimmed
    text; a text of whitespace only, or the empty text, gives no chunk.
    Two iterations are enough. *)
Theorem create_chunks_short_text
    (self : TextProcessingAgent) (text : str) (fuel : nat) :
  len text <= chunk_size self ->
  len text <= chunk_size self - overlap self ->
  create_chunks (S (S fuel)) self text
  = Returned (if truthy (strip text) then [strip text] else []).
Proof.
  intros Hcs Hstep. unfold create_chunks. cbn [create_chunks_loop].
  destruct (Z.ltb_spec 0 (len text)) as [Hlt|Hge].
  - rewrite window_end_last by lia. cbv zeta.
    rewrite slice_whole by lia.
    replace (0 + chunk_size self - overlap self <? len text) with false
      by (symmetry; apply Z.ltb_ge; lia).
    now destruct (truthy (strip text)).
  - assert (text = []) as ->
        by (destruct text; [reflexivity | unfold len in Hge; cbn in Hge; lia]).
    reflexivity.
Qed.

(** X3 with the default configuration on a text of one padded word. *)
Lemma create_chunks_short_text_witness :
  create_chunks 2 default_TextProcessingAgent (lit "  word  ")
  = Returned [lit "word"].
Proof.
  apply (create_chunks_short_text default_TextProcessingAgent (lit "  word  ") 0);
    vm_compute; discriminate.
Defined.

(** X4.  A text that fits in one window but is longer than the chunk
    size less the overlap is returned whole and then once more from
    position [chunk_size - overlap] on: its tail comes back as a second
    chunk.  (Stated for texts of at most twice that step, for which the
    third start is past the end.) *)
Theorem create_chunks_repeats_tail
    (self : TextProcessingAgent) (text : str) (fuel : nat) :
  let step := chunk_size self - overlap self in
  0 < step < len text ->
  len text <= chunk_size self ->
  len text <= 2 * step ->
  create_chunks (S (S (S fuel))) self text
  = Returned (filter truthy [strip text; strip (slice_from text step)]).
Proof.
  cbv zeta. intros Hstep Hcs Htwo. unfold create_chunks.
  cbn [create_chunks_loop].
  replace (0 <? len text) with true by (symmetry; apply Z.ltb_lt; lia).
  rewrite window_end_last by lia. cbv zeta. rewrite slice_whole by lia.
  replace (0 + chunk_size self - overlap self)
    with (chunk_size self - overlap self) by lia.
  replace (chunk_size self - overlap self <? len text) with true
    by (symmetry; apply Z.ltb_lt; lia).
  rewrite window_end_last by lia. rewrite slice_to_end by lia.
  replace (chunk_size self - overlap self + chunk_size self - overlap self
           <? len text) with false by (symmetry; apply Z.ltb_ge; lia).
  cbn [filter app].
  destruct (truthy (strip text));
    now destruct (truthy (strip (slice_from text
                                   (chunk_size self - overlap self)))).
Qed.

(** X4 on the text "abcdef" with chunk size 6 and overlap 2. *)
Lemma create_chunks_repeats_tail_witness :
  create_chunks 3 (mkTextProcessingAgent 6 2) (lit "abcdef")
  = Returned [lit "abcdef"; lit "ef"].
Proof.
  apply (create_chunks_repeats_tail (mkTextProcessingAgent 6 2) (lit "abcdef") 0);
    vm_compute; intuition discriminate.
Defined.

(** ** create_chunks on a text without breaks *)

Lemma rfind_from_found (c : ascii) (sub : str) :
  forall (s : str) (i best : Z),
    rfind_from s (c :: sub) i best = best \/ In c s.
Proof.
  induction s as [|d s IH]; intros i best; cbn [rfind_from].
  - left. reflexivity.
  - destruct (startswith (d :: s) (c :: sub)) eqn:E.
    + right. apply startswith_cons_inv in E as (s' & Hs).
      injection Hs as -> _. now left.
    + destruct (IH (i + 1) best) as [H|H]; [now left | right; now right].
Qed.

Lemma substring_In (c : ascii) (sub s : str) :
  substring sub s -> In c sub -> In c s.
Proof.
  intros (pre & post & ->) H. apply in_or_app. right.
  apply in_or_app. now left.
Qed.

(** A first window that stops short of the end of a text without
    newline or full stop holds no marker. *)
Lemma first_window_raises (self : TextProcessingAgent) (text : str)
    (fuel : nat) :
  text <> [] ->
  chunk_size self < len text ->
  ~ In nl text -> ~ In "."%char text ->
  create_chunks (S fuel) self text = Raised ValueError.
Proof.
  intros Hne Hcs Hnl Hdot. unfold create_chunks. cbn [create_chunks_loop].
  assert (Hlen : 0 < len text)
    by (destruct text; [congruence | unfold len; cbn [List.length]; lia]).
  replace (0 <? len text) with true by (symmetry; apply Z.ltb_lt; lia).
  rewrite window_end_raises_without_marker; [reflexivity | lia |].
  intros q Hq. unfold marker_offsets in Hq. cbn [In] in Hq.
  assert (Hin : forall c, In c (slice text 0 (0 + chunk_size self)) -> In c text)
    by (intros c; apply substring_In, slice_substring).
  destruct Hq as [<-|[<-|[<-|[]]]]; unfold rfind, lit;
    cbn [list_ascii_of_string];
    match goal with
    | |- rfind_from ?w (?c :: ?sub) 0 (-1) = -1 =>
        destruct (rfind_from_found c sub w 0 (-1)) as [E|E]; [exact E|];
        apply Hin in E; contradiction
    end.
Qed.


(** X5.  A non-empty text longer than the chunk size that holds no
    newline and no full stop makes [create_chunks] raise [ValueError] in
    its first iteration: no chunk is returned. *)
Theorem create_chunks_raises_without_breaks
    (self : TextProcessingAgent) (text : str) (fuel : nat) :
  text <> [] ->
  chunk_size self < len text ->
  ~ In nl text -> ~ In "."%char text ->
  create_chunks (S fuel) self text = Raised ValueError.
Proof. apply first_window_raises. Qed.

(** X5 on the text "hello world" with chunk size 5. *)
Lemma create_chunks_raises_without_breaks_witness :
  create_chunks 1 (mkTextProcessingAgent 5 1) (lit "hello world")
  = Raised ValueError.
Proof.
  apply (create_chunks_raises_without_breaks (mkTextProcessingAgent 5 1)
           (lit "hello world") 0).
  - discriminate.
  - vm_compute. reflexivity.
  - vm_compute. intuition discriminate.
  - vm_compute. intuition discriminate.
Defined.

(** ** _parse_qa_response *)

(** The scan never holds a question and an answer at once; what it has
    gathered and what it holds came out of [strip]. *)
Definition scan_invariant (st : parse_state) : Prop :=
  Forall (fun pair => trimmed (question pair) /\ trimmed (answer pair)
                      /\ confidence pair = 1%Q
                      /\ metadata pair = source_type "groq_llama2")
         (qa_pairs st)
  /\ (current_question st = None \/ current_answer st = None)
  /\ (forall q, current_question st = Some q -> trimmed q).

Lemma parse_line_invariant (st : parse_state) (line : str) :
  scan_invariant st -> scan_invariant (parse_line st line).
Proof.
  intros (Hpairs & Hnone & Hq). unfold parse_line.
  destruct (negb (truthy line)); [now repeat split|].
  destruct (startswith_any line question_prefixes).
  - unfold flush_pair. cbn [current_question current_answer qa_pairs].
    repeat split; cbn [qa_pairs current_question current_answer].
    + destruct Hnone as [-> | ->]; [exact Hpairs|].
      now destruct (current_question st).
    + now right.
    + intros q [= <-]. apply strip_trimmed.
  - destruct (startswith_any line answer_prefixes); [|now repeat split].
    cbv zeta. cbn [current_question].
    destruct (current_question st) as [q|] eqn:Eq.
    + unfold flush_pair. cbn [current_question current_answer qa_pairs].
      try rewrite Eq. repeat split; cbn [qa_pairs current_question current_answer].
      * apply Forall_app. split; [exact Hpairs|].
        constructor; [|constructor]. cbn.
        repeat split; [now apply Hq | apply strip_trimmed].
      * now left.
      * discriminate.
    + repeat split; cbn [qa_pairs current_question current_answer];
        [exact Hpairs | now left | discriminate].
Qed.

Lemma fold_parse_line_invariant (lines : list str) :
  forall st, scan_invariant st -> scan_invariant (fold_left parse_line lines st).
Proof.
  induction lines as [|line rest IH]; intros st H; cbn [fold_left]; [exact H|].
  now apply IH, parse_line_invariant.
Qed.

Lemma initial_scan_invariant : scan_invariant (mkParseState [] None None).
Proof. repeat split; [constructor | now left | discriminate]. Qed.

(** The branch after the scan ("remaining complete pair") never adds a
    pair. *)
Lemma final_flush_adds_nothing (st : parse_state) (source : string) :
  scan_invariant st -> flush_pair st source = qa_pairs st.
Proof.
  intros (_ & [H|H] & _); unfold flush_pair; rewrite H;
    [reflexivity | now destruct (current_question st)].
Qed.

(** X6.  Every pair [_parse_qa_response] returns has a question and an
    answer that are non-empty and trimmed, the default confidence 1.0,
    and the metadata [{'source_type': 'groq_llama2'}]: the branch that
    would tag a pair 'llama-3.1-70b-versatile' never adds one. *)
Theorem parse_qa_response_pairs_well_formed (response_text : str) :
  Forall (fun pair =>
            question pair <> [] /\ trimmed (question pair)
            /\ answer pair <> [] /\ trimmed (answer pair)
            /\ confidence pair = 1%Q
            /\ metadata pair = source_type "groq_llama2")
         (_parse_qa_response response_text).
Proof.
  unfold _parse_qa_response. cbv zeta.
  set (st := fold_left parse_line _ _).
  assert (Hinv : scan_invariant st)
    by (apply fold_parse_line_invariant, initial_scan_invariant).
  rewrite (final_flush_adds_nothing st _ Hinv).
  destruct Hinv as (Hpairs & _). apply Forall_forall.
  intros pair Hin. apply filter_In in Hin as [Hin Hwf].
  rewrite Forall_forall in Hpairs. destruct (Hpairs pair Hin) as (Hq & Ha & Hc & Hm).
  unfold well_formed_pair in Hwf.
  apply andb_prop in Hwf as [Hwf _]. apply andb_prop in Hwf as [Hwf _].
  apply andb_prop in Hwf as [Htq Hta].
  repeat split; try assumption.
  - destruct (question pair); [discriminate | congruence].
  - destruct (answer pair); [discriminate | congruence].
Qed.

(** How many pairs the scan can have gathered, against the question and
    answer lines it has seen. *)
Lemma fold_parse_line_count (lines : list str) :
  forall (st : parse_state) (nq na : nat),
    scan_invariant st ->
    (List.length (qa_pairs st)
     + match current_question st with Some _ => 1 | None => 0 end <= nq)%nat ->
    (List.length (qa_pairs st) <= na)%nat ->
    let st' := fold_left parse_line lines st in
    (List.length (qa_pairs st')
     <= nq + List.length (filter is_question_line lines))%nat
    /\ (List.length (qa_pairs st')
        <= na + List.length (filter is_answer_line lines))%nat.
Proof.
  induction lines as [|line rest IH]; intros st nq na Hinv Hq Ha;
    cbn [fold_left filter]; cbv zeta.
  - cbn [List.length]. destruct (current_question st); lia.
  - pose proof (parse_line_invariant st line Hinv) as Hinv'.
    assert (Hstep :
      (List.length (qa_pairs (parse_line st line))
       + match current_question (parse_line st line) with
          | Some _ => 1 | None => 0 end
       <= nq + (if is_question_line line then 1 else 0))%nat
      /\ (List.length (qa_pairs (parse_line st line))
          <= na + (if is_answer_line line then 1 else 0))%nat).
    { unfold parse_line, is_question_line, is_answer_line.
      destruct line as [|c line'].
      - cbn. split; lia.
      - cbn [truthy negb].
        destruct (startswith_any (c :: line') question_prefixes).
        + cbn [qa_pairs current_question].
          rewrite (final_flush_adds_nothing st _ Hinv).
          destruct (current_question st),
            (startswith_any (c :: line') answer_prefixes); lia.
        + destruct (startswith_any (c :: line') answer_prefixes);
            [|split; lia].
          cbv zeta. cbn [current_question].
          destruct (current_question st) as [q|] eqn:Eq.
          * unfold flush_pair. cbn [current_question current_answer qa_pairs].
            try rewrite Eq. rewrite length_app. cbn [List.length]. split; lia.
          * cbn [qa_pairs current_question]. try rewrite Eq. split; lia. }
    destruct Hstep as [Hq' Ha'].
    destruct (IH (parse_line st line)
                 (nq + (if is_question_line line then 1 else 0))%nat
                 (na + (if is_answer_line line then 1 else 0))%nat
                 Hinv' Hq' Ha') as [H1 H2].
    destruct (is_question_line line), (is_answer_line line);
      cbn [List.length]; split; lia.
Qed.

(** X7.  [_parse_qa_response] returns no more pairs than the response
    has question lines, and no more than it has answer lines: a question
    that is not followed by an answer before the next question, and an
    answer with no question pending, give no pair. *)
Theorem parse_qa_response_count (response_text : str) :
  (List.length (_parse_qa_response response_text)
   <= List.length (filter is_question_line (response_lines response_text)))%nat
  /\ (List.length (_parse_qa_response response_text)
      <= List.length (filter is_answer_line (response_lines response_text)))%nat.
Proof.
  unfold _parse_qa_response. cbv zeta. fold (response_lines response_text).
  set (lines := response_lines response_text).
  assert (Hinv : scan_invariant (fold_left parse_line lines
                                   (mkParseState [] None None)))
    by (apply fold_parse_line_invariant, initial_scan_invariant).
  rewrite (final_flush_adds_nothing _ _ Hinv).
  destruct (fold_parse_line_count lines (mkParseState [] None None) 0 0
              initial_scan_invariant) as [H1 H2]; [cbn; lia | cbn; lia |].
  pose proof (filter_length_le well_formed_pair
                (qa_pairs (fold_left parse_line lines
                             (mkParseState [] None None)))) as Hf.
  split; lia.
Qed.

(** *** Reading back the validator's rendering of a batch *)

Lemma lstrip_strip (s : str) : lstrip (strip s) = strip s.
Proof.
  unfold strip, rstrip.
  destruct (lstrip_fixed_cases (lstrip s) (lstrip_idempotent s))
    as [->|(c & t & -> & Hc)]; [reflexivity|].
  cbn [rev]. rewrite (lstrip_app_nonspace _ _ Hc), rev_app_distr.
  cbn [rev app lstrip]. now rewrite Hc.
Qed.

(** A trimmed string that is not empty starts and ends with a character
    other than whitespace. *)
Lemma trimmed_ends (s : str) :
  trimmed s -> s <> [] ->
  (exists c t, s = c :: t /\ isspace c = false)
  /\ (exists t c, s = t ++ [c] /\ isspace c = false).
Proof.
  intros Ht Hne. unfold trimmed in Ht.
  assert (Hl : lstrip s = s) by (rewrite <- Ht; apply lstrip_strip).
  assert (Hr : lstrip (rev s) = rev s).
  { rewrite <- Ht at 2. unfold strip, rstrip. rewrite rev_involutive, Hl.
    rewrite <- Ht at 1. unfold strip, rstrip.
    now rewrite rev_involutive, Hl, lstrip_idempotent. }
  split.
  - destruct (lstrip_fixed_cases s Hl) as [->|H]; [congruence | exact H].
  - destruct (lstrip_fixed_cases (rev s) Hr) as [E|(c & t & E & Hc)].
    + apply (f_equal (@rev ascii)) in E. rewrite rev_involutive in E. now subst.
    + exists (rev t), c. split; [|exact Hc].
      apply (f_equal (@rev ascii)) in E. rewrite rev_involutive in E.
      exact E.
Qed.

Lemma strip_between_nonspace (c d : ascii) (s : str) :
  isspace c = false -> isspace d = false ->
  strip (c :: s ++ [d]) = c :: s ++ [d].
Proof.
  intros Hc Hd. unfold strip, rstrip. cbn [lstrip]. rewrite Hc.
  change (c :: s ++ [d]) with ((c :: s) ++ [d]).
  rewrite rev_app_distr. cbn [rev app lstrip]. rewrite Hd.
  cbn [rev]. now rewrite rev_app_distr, rev_involutive.
Qed.

Lemma split_no_sep (sep : ascii) (s : str) :
  ~ In sep s -> split sep s = [s].
Proof.
  induction s as [|c s IH]; intro H; cbn [split]; [reflexivity|].
  destruct (Ascii.eqb_spec c sep) as [->|Hne]; [exfalso; apply H; now left|].
  rewrite IH; [reflexivity | intro; apply H; now right].
Qed.

Lemma split_app_sep (sep : ascii) (s rest : str) :
  ~ In sep s -> split sep (s ++ sep :: rest) = s :: split sep rest.
Proof.
  induction s as [|c s IH]; intro H; cbn [split app].
  - now rewrite Ascii.eqb_refl.
  - destruct (Ascii.eqb_spec c sep) as [->|Hne]; [exfalso; apply H; now left|].
    rewrite IH; [reflexivity | intro; apply H; now right].
Qed.

(** Splitting undoes joining, for lines that hold no separator. *)
Lemma split_join (sep : ascii) (lines : list str) :
  lines <> [] -> Forall (fun l => ~ In sep l) lines ->
  split sep (join [sep] lines) = lines.
Proof.
  induction lines as [|l rest IH]; intros Hne Hall; [congruence|].
  inversion Hall as [|? ? Hl Hrest]; subst.
  destruct rest as [|l' rest'].
  - cbn [join]. now apply split_no_sep.
  - change (join [sep] (l :: l' :: rest'))
      with (l ++ sep :: join [sep] (l' :: rest')).
    rewrite split_app_sep by assumption. f_equal.
    apply IH; [discriminate | assumption].
Qed.

Lemma join_cons (sep x : str) (rest : list str) :
  rest <> [] -> join sep (x :: rest) = x ++ sep ++ join sep rest.
Proof. destruct rest; [congruence | reflexivity]. Qed.

(** A string that starts and ends with a character other than
    whitespace is trimmed. *)
Lemma nonspace_ends_trimmed (s : str) :
  (exists c t, s = c :: t /\ isspace c = false) ->
  (exists t d, s = t ++ [d] /\ isspace d = false) ->
  strip s = s.
Proof.
  intros (c & t & Hs & Hc) (t' & d & Hs' & Hd). unfold strip, rstrip.
  assert (Hl : lstrip s = s) by (rewrite Hs; cbn [lstrip]; now rewrite Hc).
  rewrite Hl, Hs', rev_app_distr. cbn [rev app lstrip]. rewrite Hd.
  cbn [rev]. now rewrite rev_involutive.
Qed.

(** Trimmed non-empty lines joined by newlines make a trimmed text. *)
Lemma join_lines_trimmed (lines : list str) :
  lines <> [] ->
  Forall (fun l => strip l = l /\ l <> []) lines ->
  strip (join [nl] lines) = join [nl] lines.
Proof.
  intros Hne Hall. apply nonspace_ends_trimmed.
  - destruct lines as [|l rest]; [congruence|].
    inversion Hall as [|? ? [Hs Hn] _]; subst.
    destruct (trimmed_ends l Hs Hn) as ((c & t & -> & Hc) & _).
    destruct rest; [now exists c, t|].
    rewrite join_cons by discriminate. cbn [app]. eauto.
  - induction lines as [|l rest IH]; [congruence|].
    inversion Hall as [|? ? [Hs Hn] Hrest]; subst.
    destruct rest as [|l' rest'].
    + cbn [join]. now destruct (trimmed_ends l Hs Hn) as (_ & H).
    + destruct IH as (t & d & E & Hd); [discriminate | exact Hrest |].
      exists (l ++ [nl] ++ t), d. split; [|exact Hd].
      rewrite join_cons by discriminate. rewrite E.
      now rewrite <- !app_assoc.
Qed.

Definition rendered_lines (pair : QAPair) : list str :=
  [lit "Q: " ++ question pair; lit "A: " ++ answer pair].

Lemma qa_text_of_lines (pairs : list QAPair) :
  qa_text_of pairs = join [nl] (flat_map rendered_lines pairs).
Proof.
  unfold qa_text_of. induction pairs as [|p rest IH]; [reflexivity|].
  cbn [map flat_map rendered_lines app].
  rewrite (join_cons _ (lit "Q: " ++ question p)) by discriminate.
  destruct rest as [|p' rest'].
  - cbn [map flat_map join app]. now rewrite <- !app_assoc.
  - rewrite (join_cons _ (lit "Q: " ++ question p ++ [nl] ++ lit "A: " ++ answer p))
      by discriminate.
    cbn [app] in IH. rewrite IH.
    rewrite (join_cons _ (lit "A: " ++ answer p)) by discriminate.
    now rewrite <- !app_assoc.
Qed.

(** A question or an answer as the parser can give it back: not empty,
    trimmed, on one line. *)
Definition one_line (s : str) : Prop :=
  s <> [] /\ trimmed s /\ ~ In nl s.

Lemma rendered_line_trimmed (prefix : string) (s : str) (c : ascii) (t : str) :
  lit prefix = c :: t -> isspace c = false -> one_line s ->
  strip (lit prefix ++ s) = lit prefix ++ s.
Proof.
  intros Hp Hc (Hne & Ht & _).
  destruct (trimmed_ends s Ht Hne) as (_ & s' & d & -> & Hd).
  rewrite Hp. cbn [app]. rewrite app_assoc.
  now apply strip_between_nonspace.
Qed.

Lemma response_lines_of_rendering (pairs : list QAPair) :
  Forall (fun pair => one_line (question pair) /\ one_line (answer pair)) pairs ->
  response_lines (qa_text_of pairs) = flat_map rendered_lines pairs.
Proof.
  intro Hall. rewrite qa_text_of_lines. unfold response_lines.
  destruct pairs as [|p rest]; [reflexivity|].
  set (lines := flat_map rendered_lines (p :: rest)).
  assert (Hlines : Forall (fun l => strip l = l /\ l <> [] /\ ~ In nl l) lines).
  { subst lines. apply Forall_flat_map. eapply Forall_impl; [|exact Hall].
    intros pair [Hq Ha]. unfold rendered_lines.
    repeat constructor;
      try (eapply rendered_line_trimmed; [reflexivity | reflexivity | assumption]);
      try discriminate.
    - destruct Hq as (_ & _ & Hnl). intro H. apply in_app_or in H as [H|H];
        [vm_compute in H; intuition discriminate | contradiction].
    - destruct Ha as (_ & _ & Hnl). intro H. apply in_app_or in H as [H|H];
        [vm_compute in H; intuition discriminate | contradiction]. }
  assert (Hne : lines <> []) by (subst lines; cbn; discriminate).
  assert (Htext : strip (join [nl] lines) = join [nl] lines).
  { apply join_lines_trimmed; [exact Hne|].
    eapply Forall_impl; [|exact Hlines]. now intros l (H1 & H2 & _). }
  rewrite Htext, split_join;
    [|exact Hne | eapply Forall_impl; [|exact Hlines]; now intros l (_ & _ & H)].
  clear Htext Hne. induction Hlines as [|l ls (Hs & Hn & _) _ IH];
    [reflexivity|].
  cbn [filter map]. rewrite Hs.
  destruct l; [congruence|]. cbn [truthy map]. now rewrite Hs, IH.
Qed.

Lemma strip_space_trimmed (s : str) :
  one_line s -> strip (" "%char :: s) = s.
Proof.
  intros (Hne & Ht & _).
  assert (Hl : lstrip s = s) by (rewrite <- Ht; apply lstrip_strip).
  unfold strip. cbn [lstrip].
  replace (isspace " ") with true by reflexivity.
  rewrite Hl. unfold trimmed, strip in Ht. now rewrite Hl in Ht.
Qed.

(** The scan over the two lines of each rendered pair. *)
Lemma fold_parse_rendered (pairs : list QAPair) :
  Forall (fun pair => one_line (question pair) /\ one_line (answer pair)) pairs ->
  forall acc : list QAPair,
    fold_left parse_line (flat_map rendered_lines pairs)
              (mkParseState acc None None)
    = mkParseState
        (acc ++ map (fun pair => new_QAPair (question pair) (answer pair)
                                   (source_type "groq_llama2")) pairs)
        None None.
Proof.
  induction 1 as [|p rest [Hq Ha] _ IH]; intro acc; cbn [flat_map map].
  - cbn. now rewrite app_nil_r.
  - cbn [rendered_lines app fold_left].
    change (parse_line (mkParseState acc None None) (lit "Q: " ++ question p))
      with (mkParseState acc
              (Some (strip (" "%char :: question p))) None).
    rewrite (strip_space_trimmed _ Hq).
    change (parse_line (mkParseState acc (Some (question p)) None)
                       (lit "A: " ++ answer p))
      with (mkParseState
              (acc ++ [new_QAPair (question p) (strip (" "%char :: answer p))
                                  (source_type "groq_llama2")])
              None None).
    rewrite (strip_space_trimmed _ Ha), IH, <- app_assoc. reflexivity.
Qed.

(** X8.  The parser reads back what the validator writes: for a batch
    whose questions and answers are non-empty, trimmed and free of
    newlines, parsing the text [validate_qa_pairs] renders for its prompt
    ("Q: ..." and "A: ..." lines) gives the same questions and answers,
    in the same order, each with the default confidence and the parser's
    metadata. *)
Theorem parse_qa_response_reads_rendering (pairs : list QAPair) :
  Forall (fun pair => one_line (question pair) /\ one_line (answer pair)) pairs ->
  _parse_qa_response (qa_text_of pairs)
  = map (fun pair => new_QAPair (question pair) (answer pair)
                       (source_type "groq_llama2")) pairs.
Proof.
  intro Hall. unfold _parse_qa_response. cbv zeta.
  fold (response_lines (qa_text_of pairs)).
  rewrite (response_lines_of_rendering pairs Hall).
  rewrite (fold_parse_rendered pairs Hall []). cbn [app].
  unfold flush_pair. cbn [current_question qa_pairs].
  induction Hall as [|p rest [Hq Ha] _ IH]; [reflexivity|].
  cbn [map filter]. rewrite IH.
  unfold well_formed_pair, new_QAPair. cbn [question answer].
  destruct Hq as (Hqn & Hqt & _), Ha as (Han & Hat & _).
  unfold trimmed in Hqt, Hat. rewrite Hqt, Hat.
  destruct (question p) as [|qc qs]; [congruence|].
  destruct (answer p) as [|ac as_]; [congruence|].
  cbn [truthy andb].
  replace (0 <? len (qc :: qs)) with true
    by (symmetry; apply Z.ltb_lt; unfold len; cbn [List.length]; lia).
  replace (0 <? len (ac :: as_)) with true
    by (symmetry; apply Z.ltb_lt; unfold len; cbn [List.length]; lia).
  reflexivity.
Qed.

(** X8 on a batch of two pairs; the first answer holds a colon. *)
Lemma parse_qa_response_reads_rendering_witness :
  _parse_qa_response
    (qa_text_of [mkQAPair (lit "What?") (lit "This: that.") (1 # 2) None;
                 mkQAPair (lit "Why?") (lit "Because.") (1 # 2) None])
  = [new_QAPair (lit "What?") (lit "This: that.") (source_type "groq_llama2");
     new_QAPair (lit "Why?") (lit "Because.") (source_type "groq_llama2")].
Proof.
  apply (parse_qa_response_reads_rendering
           [mkQAPair (lit "What?") (lit "This: that.") (1 # 2) None;
            mkQAPair (lit "Why?") (lit "Because.") (1 # 2) None]).
  repeat constructor; try discriminate; try reflexivity;
    vm_compute; intuition discriminate.
Defined.

(** ** The chunk loop and its counters *)

(** The counters of [st'] are those of [st] after [n] more pairs. *)
Definition counts_grow_by (st st' : Stats) (n : Z) : Prop :=
  total_chunks st' = total_chunks st
  /\ total_qa_pairs st' = total_qa_pairs st + n
  /\ high_confidence st' + low_confidence st'
     = high_confidence st + low_confidence st + n
  /\ high_confidence st <= high_confidence st'
  /\ low_confidence st <= low_confidence st'.

Lemma counts_grow_refl (st : Stats) : counts_grow_by st st 0.
Proof. unfold counts_grow_by. repeat split; lia. Qed.

Lemma counts_grow_trans (st1 st2 st3 : Stats) (n m : Z) :
  counts_grow_by st1 st2 n -> counts_grow_by st2 st3 m ->
  counts_grow_by st1 st3 (n + m).
Proof. unfold counts_grow_by. intros H1 H2. repeat split; lia. Qed.

Lemma fold_count_pair_grows (pairs : list QAPair) :
  forall st,
    let st' := fold_left count_pair pairs st in
    total_chunks st' = total_chunks st
    /\ total_qa_pairs st' = total_qa_pairs st
    /\ high_confidence st' + low_confidence st'
       = high_confidence st + low_confidence st + Z.of_nat (List.length pairs)
    /\ high_confidence st <= high_confidence st'
    /\ low_confidence st <= low_confidence st'.
Proof.
  induction pairs as [|p ps IH]; intro st; cbn [fold_left List.length]; cbv zeta.
  - repeat split; lia.
  - destruct (IH (count_pair st p)) as (H1 & H2 & H3 & H4 & H5).
    unfold count_pair in *.
    destruct (negb (Qle_bool (confidence p) (8 # 10)));
      cbn [total_chunks total_qa_pairs high_confidence low_confidence] in *;
      repeat split; lia.
Qed.

Lemma update_stats_grows (st : Stats) (pairs : list QAPair) :
  counts_grow_by st (update_stats st pairs) (Z.of_nat (List.length pairs)).
Proof.
  unfold update_stats.
  destruct (fold_count_pair_grows pairs
              (mkStats (total_chunks st)
                       (total_qa_pairs st + Z.of_nat (List.length pairs))
                       (failed_chunks st) (high_confidence st)
                       (low_confidence st)))
    as (H1 & H2 & H3 & H4 & H5).
  cbn [total_chunks total_qa_pairs high_confidence low_confidence] in *.
  unfold counts_grow_by. repeat split; lia.
Qed.

Lemma errors_logged_app (l l' : list log_record) :
  errors_logged (l ++ l') = errors_logged l + errors_logged l'.
Proof. unfold errors_logged. rewrite filter_app, length_app. lia. Qed.

Section LoopCounters.

Context {W : Type}.
Variable qa_generator : str -> option str -> W -> W * result (list QAPair).
Variable validator : list QAPair -> W -> W * result (list QAPair).
Variable context_manager : str -> W -> W * result str.

Local Abbreviation body := (chunk_body qa_generator validator context_manager).
Local Abbreviation step := (process_chunk qa_generator validator context_manager).
Local Abbreviation loop := (process_from qa_generator validator context_manager).

(** The pairs a [try] block adds to the result are the pairs it counts. *)
Lemma chunk_body_counts (chunk : str) (r : run W) :
  exists added : list QAPair,
    all_qa_pairs (fst (body chunk r)) = all_qa_pairs r ++ added
    /\ counts_grow_by (stats r) (stats (fst (body chunk r)))
                      (Z.of_nat (List.length added)).
Proof.
  unfold chunk_body.
  destruct (qa_generator chunk (context r) (agents r)) as [w1 [qa_pairs|e]].
  - destruct (validator qa_pairs w1) as [w2 [validated|e]].
    + destruct (context_manager chunk w2) as [w3 [c|e]];
        exists validated; cbn [fst all_qa_pairs stats];
        (split; [reflexivity | apply update_stats_grows]).
    + exists []. cbn [fst all_qa_pairs stats]. rewrite app_nil_r.
      split; [reflexivity | apply counts_grow_refl].
  - exists []. cbn [fst all_qa_pairs stats]. rewrite app_nil_r.
    split; [reflexivity | apply counts_grow_refl].
Qed.

(** One iteration: the counters follow the pairs, and the count of
    failed chunks follows the error records of the log. *)
Lemma process_chunk_counts (n : Z) (r : run W) (ic : Z * str) :
  exists added : list QAPair,
    all_qa_pairs (step n r ic) = all_qa_pairs r ++ added
    /\ counts_grow_by (stats r) (stats (step n r ic))
                      (Z.of_nat (List.length added))
    /\ failed_chunks (stats (step n r ic)) - errors_logged (log (step n r ic))
       = failed_chunks (stats r) - errors_logged (log r)
    /\ failed_chunks (stats r) <= failed_chunks (stats (step n r ic))
       <= failed_chunks (stats r) + 1.
Proof.
  destruct ic as [i chunk]. unfold process_chunk.
  set (r0 := mkRun (agents r) (stats r) (all_qa_pairs r) (context r)
                   (log r ++ [ProcessingChunk i n])).
  destruct (chunk_body_counts chunk r0) as (added & Hall & Hgrow).
  destruct (chunk_body_frame qa_generator validator context_manager chunk r0)
    as [Hlog Hfail].
  assert (Hlog0 : errors_logged (log r0) = errors_logged (log r)).
  { subst r0. cbn [log]. rewrite errors_logged_app.
    change (errors_logged [ProcessingChunk i n]) with 0. lia. }
  destruct (body chunk r0) as [r1 [u|e]]; cbn [fst] in *; exists added.
  - rewrite Hlog, Hfail, Hlog0. subst r0. cbn [stats all_qa_pairs] in *.
    repeat split; try assumption; try lia; apply Hgrow.
  - cbn [stats all_qa_pairs log incr_failed failed_chunks].
    split; [exact Hall|]. split.
    + unfold counts_grow_by in *.
      cbn [total_chunks total_qa_pairs high_confidence low_confidence].
      subst r0. cbn [stats] in Hgrow. exact Hgrow.
    + rewrite Hfail. subst r0. cbn [stats]. split; [|lia].
      rewrite errors_logged_app, Hlog, Hlog0.
      change (errors_logged [ErrorProcessingChunk i e]) with 1. lia.
Qed.

Lemma process_from_counts (n : Z) (chunks : list str) :
  forall (first : Z) (r : run W),
    exists added : list QAPair,
      all_qa_pairs (loop n first chunks r) = all_qa_pairs r ++ added
      /\ counts_grow_by (stats r) (stats (loop n first chunks r))
                        (Z.of_nat (List.length added))
      /\ failed_chunks (stats (loop n first chunks r))
         - errors_logged (log (loop n first chunks r))
         = failed_chunks (stats r) - errors_logged (log r)
      /\ failed_chunks (stats r) <= failed_chunks (stats (loop n first chunks r))
         <= failed_chunks (stats r) + Z.of_nat (List.length chunks).
Proof.
  induction chunks as [|chunk rest IH]; intros first r.
  - exists []. cbn. rewrite app_nil_r.
    repeat split; try lia; apply counts_grow_refl.
  - unfold process_from in *. cbn [enumerate fold_left].
    destruct (process_chunk_counts n r (first, chunk))
      as (a1 & Hall1 & Hg1 & Hf1 & Hb1).
    destruct (IH (first + 1) (step n r (first, chunk)))
      as (a2 & Hall2 & Hg2 & Hf2 & Hb2).
    exists (a1 ++ a2). rewrite Hall2, Hall1, <- app_assoc.
    split; [reflexivity|]. split.
    + rewrite length_app, Nat2Z.inj_add. eapply counts_grow_trans; eassumption.
    + cbn [List.length]. split; lia.
Qed.

End LoopCounters.

(** X9.  The report of a run agrees with what the run saved.  Whatever
    the agents do, raising included, when [process_document] on a fresh
    generator gets through the chunker, [total_chunks] is the number of
    chunks, [total_qa_pairs] is the number of pairs saved, every saved
    pair was counted once as high or as low confidence, and
    [failed_chunks] is the number of chunk errors logged, at most one per
    chunk. *)
Theorem process_document_report_is_consistent
    (W : Type)
    (qa_generator : str -> option str -> W -> W * result (list QAPair))
    (validator : list QAPair -> W -> W * result (list QAPair))
    (context_manager : str -> W -> W * result str)
    (fuel : nat) (w : W) (extracted : result str) (chunk_size overlap : Z)
    (chunks : list str) (r : run W) (st : Stats) (saved : list QAPair) :
  process_document qa_generator validator context_manager fuel
    (new_DatasetGenerator w) extracted chunk_size overlap
  = Returned (chunks, r, Processed st saved) ->
  total_chunks st = Z.of_nat (List.length chunks)
  /\ total_qa_pairs st = Z.of_nat (List.length saved)
  /\ high_confidence st + low_confidence st = Z.of_nat (List.length saved)
  /\ failed_chunks st = errors_logged (log r)
  /\ 0 <= failed_chunks st <= Z.of_nat (List.length chunks).
Proof.
  unfold process_document, new_DatasetGenerator.
  cbn [agents0 stats0 text_processor agents stats all_qa_pairs context log].
  destruct extracted as [text|e]; [|discriminate].
  destruct (create_chunks fuel default_TextProcessingAgent text)
    as [cs|e|]; try discriminate.
  intro H. injection H as <- <- <- <-.
  unfold process_chunks.
  destruct (process_from_counts qa_generator validator context_manager
              (Z.of_nat (List.length cs)) cs 1
              (mkRun w (set_total_chunks initial_stats
                                         (Z.of_nat (List.length cs)))
                     [] None []))
    as (added & Hall & (H1 & H2 & H3 & _) & Hf & Hb).
  cbn [all_qa_pairs stats log app set_total_chunks initial_stats total_chunks
       total_qa_pairs high_confidence low_confidence failed_chunks] in *.
  change (errors_logged []) with 0 in Hf.
  rewrite Hall. repeat split; lia.
Qed.

(** X9 on a document of one chunk whose generator raises. *)
Lemma process_document_report_is_consistent_witness :
  match process_document raising_generator echo_validator
          echo_context_manager 10 (new_DatasetGenerator tt) (Ok (lit "x")) 4 0
  with
  | Returned (chunks, r, Processed st saved) =>
      total_chunks st = Z.of_nat (List.length chunks)
      /\ total_qa_pairs st = Z.of_nat (List.length saved)
      /\ failed_chunks st = errors_logged (log r)
      /\ failed_chunks st = 1
  | _ => False
  end.
Proof.
  destruct (process_document raising_generator echo_validator
              echo_context_manager 10 (new_DatasetGenerator tt)
              (Ok (lit "x")) 4 0)
    as [[[chunks r] [st saved|e]]|e|] eqn:E;
    try (vm_compute in E; discriminate).
  destruct (process_document_report_is_consistent _ _ _ _ _ _ _ _ _ _ _ _ _ E)
    as (H1 & H2 & _ & H4 & _).
  repeat split; try assumption.
  vm_compute in E. injection E as _ _ <- _. reflexivity.
Defined.

(** ** The generator with the agents of agents.py *)

(** The generator's call, with its default retry count, always hands
    back a list, after one to three requests. *)
Lemma groq_qa_generator_ok (b : backend) (chunk : str) (context : option str)
    (w : agents_state) :
  exists (n : nat) (pairs : list QAPair),
    (n <= 2)%nat
    /\ groq_qa_generator b chunk context w
       = ((fst w ++ firstn (S n)
                      (attempt_prompts chunk (context_instruction_of context) 2),
           snd w), Ok pairs).
Proof.
  destruct (generate_attempts_spec b 2 chunk (context_instruction_of context)
              ltac:(lia) 2%nat 0%nat
              (Prompts.QA_GENERATION chunk (context_instruction_of context))
              (fst w) eq_refl)
    as (n & pairs & Hrun & Hn & _).
  exists n, pairs. split; [exact Hn|].
  unfold groq_qa_generator, generate_qa_pairs. cbv zeta.
  change (range (2 + 1)) with (map Z.of_nat (seq 0 3)).
  now rewrite Hrun.
Qed.

(** The [try] block with these agents never raises, and sends three to
    five requests. *)
Lemma groq_chunk_body_ok (b : backend) (chunk : str) (r : run agents_state) :
  let out := chunk_body (groq_qa_generator b) (groq_validator b)
               (groq_context_manager b) chunk r in
  snd out = Ok tt
  /\ exists k : nat,
      (3 <= k <= 5)%nat
      /\ List.length (fst (agents (fst out)))
         = (List.length (fst (agents r)) + k)%nat.
Proof.
  cbv zeta. unfold chunk_body.
  destruct (groq_qa_generator_ok b chunk (context r) (agents r))
    as (n & pairs & Hn & ->).
  unfold groq_validator, validate_qa_pairs, complete. cbv zeta.
  unfold groq_context_manager, update_context, complete.
  set (sent1 := fst (agents r) ++ firstn (S n) _).
  assert (Hlen : List.length sent1 = (List.length (fst (agents r)) + S n)%nat).
  { subst sent1. rewrite length_app, length_firstn.
    unfold attempt_prompts. cbn [List.length]. rewrite repeat_length.
    change (Z.to_nat 2) with 2%nat. lia. }
  cbn [fst snd].
  match goal with
  | |- context [b sent1 ?p] => destruct (b sent1 p) as [feedback|]
  end; cbn [fst snd];
    match goal with
    | |- context [b ?s ?p] => destruct (b s p) as [summary|]
    end; cbn [fst snd agents];
    (split; [reflexivity|]); exists (S n + 2)%nat;
    rewrite !length_app, Hlen; cbn [List.length]; lia.
Qed.

Lemma groq_process_from (b : backend) (n : Z) (chunks : list str) :
  forall (first : Z) (r : run agents_state),
    let r' := process_from (groq_qa_generator b) (groq_validator b)
                (groq_context_manager b) n first chunks r in
    failed_chunks (stats r') = failed_chunks (stats r)
    /\ (List.length (fst (agents r)) + 3 * List.length chunks
        <= List.length (fst (agents r'))
        <= List.length (fst (agents r)) + 5 * List.length chunks)%nat.
Proof.
  induction chunks as [|chunk rest IH]; intros first r; cbv zeta.
  - cbn. split; [reflexivity | lia].
  - unfold process_from in *. cbn [enumerate fold_left].
    set (r1 := process_chunk (groq_qa_generator b) (groq_validator b)
                 (groq_context_manager b) n r (first, chunk)).
    destruct (IH (first + 1) r1) as [Hf Hr]. cbv zeta in Hf, Hr.
    assert (H1 : failed_chunks (stats r1) = failed_chunks (stats r)
                 /\ exists k, (3 <= k <= 5)%nat
                              /\ List.length (fst (agents r1))
                                 = (List.length (fst (agents r)) + k)%nat).
    { subst r1. unfold process_chunk.
      set (r0 := mkRun (agents r) (stats r) (all_qa_pairs r) (context r)
                       (log r ++ [ProcessingChunk first n])).
      destruct (groq_chunk_body_ok b chunk r0) as [Hok (k & Hk & Hlen)].
      destruct (chunk_body_frame (groq_qa_generator b) (groq_validator b)
                  (groq_context_manager b) chunk r0) as [_ Hfail].
      destruct (chunk_body _ _ _ chunk r0) as [r1 res]. cbn [fst snd] in *.
      subst res. split; [exact Hfail | now exists k]. }
    destruct H1 as [Hf1 (k & Hk & Hlen1)].
    split; [lia|]. cbn [List.length]. lia.
Qed.

(** What a run with these agents leaves, against the state it started
    from. *)
Lemma groq_process_document_run (b : backend) (fuel : nat)
    (extracted : result str) (chunk_size overlap : Z) (chunks : list str)
    (r : run agents_state) (st : Stats) (saved : list QAPair) :
  groq_process_document b fuel extracted chunk_size overlap
  = Returned (chunks, r, Processed st saved) ->
  st = stats r /\ saved = all_qa_pairs r
  /\ r = process_chunks (groq_qa_generator b) (groq_validator b)
           (groq_context_manager b) chunks
           (mkRun ([], new_ContextManager)
                  (set_total_chunks initial_stats
                                    (Z.of_nat (List.length chunks)))
                  [] None []).
Proof.
  unfold groq_process_document, process_document, groq_DatasetGenerator,
    new_DatasetGenerator.
  cbn [agents0 stats0 text_processor agents stats all_qa_pairs context log].
  destruct extracted as [text|e]; [|discriminate].
  destruct (create_chunks fuel default_TextProcessingAgent text)
    as [cs|e|]; try discriminate.
  intro H. injection H as <- <- <- <-. repeat split.
Qed.

(** X10.  With the agents of agents.py no chunk is ever counted as
    failed, whatever the backend does: a chunk whose three generation
    attempts all fail yields no pair and is reported like any other.
    Such a run reports zero failed chunks and logs no chunk error. *)
Theorem groq_run_reports_no_failed_chunk
    (b : backend) (fuel : nat) (extracted : result str)
    (chunk_size overlap : Z) (chunks : list str) (r : run agents_state)
    (st : Stats) (saved : list QAPair) :
  groq_process_document b fuel extracted chunk_size overlap
  = Returned (chunks, r, Processed st saved) ->
  failed_chunks st = 0 /\ errors_logged (log r) = 0.
Proof.
  intro H. apply groq_process_document_run in H as (-> & _ & ->).
  unfold process_chunks.
  destruct (groq_process_from b (Z.of_nat (List.length chunks)) chunks 1
              (mkRun ([], new_ContextManager)
                     (set_total_chunks initial_stats
                                       (Z.of_nat (List.length chunks)))
                     [] None [])) as [Hf _].
  destruct (process_from_counts (groq_qa_generator b) (groq_validator b)
              (groq_context_manager b) (Z.of_nat (List.length chunks)) chunks 1
              (mkRun ([], new_ContextManager)
                     (set_total_chunks initial_stats
                                       (Z.of_nat (List.length chunks)))
                     [] None [])) as (_ & _ & _ & He & _).
  cbv zeta in Hf. cbn [stats log] in Hf, He.
  change (errors_logged []) with 0 in He.
  change (failed_chunks (set_total_chunks initial_stats
                           (Z.of_nat (List.length chunks)))) with 0 in Hf, He.
  split; [exact Hf | lia].
Qed.

(** X10 with a backend that fails every request, on a text of one
    chunk: nothing is saved and no chunk is reported as failed. *)
Lemma groq_run_reports_no_failed_chunk_witness :
  match groq_process_document failing_backend 10 (Ok (lit "some text")) 2000 200
  with
  | Returned (chunks, r, Processed st saved) =>
      chunks = [lit "some text"] /\ saved = []
      /\ failed_chunks st = 0 /\ errors_logged (log r) = 0
  | _ => False
  end.
Proof.
  destruct (groq_process_document failing_backend 10 (Ok (lit "some text"))
              2000 200)
    as [[[chunks r] [st saved|e]]|e|] eqn:E;
    try (vm_compute in E; discriminate).
  destruct (groq_run_reports_no_failed_chunk _ _ _ _ _ _ _ _ _ E) as [H1 H2].
  vm_compute in E. injection E as <- _ _ <-.
  repeat split; assumption.
Defined.

(** X11.  With the agents of agents.py a document of [n] chunks costs
    between [3 n] and [5 n] requests to the backend: one to three for
    the generation of each chunk, one for its validation (sent even for
    an empty batch) and one for its summary. *)
Theorem groq_run_request_count
    (b : backend) (fuel : nat) (extracted : result str)
    (chunk_size overlap : Z) (chunks : list str) (r : run agents_state)
    (st : Stats) (saved : list QAPair) :
  groq_process_document b fuel extracted chunk_size overlap
  = Returned (chunks, r, Processed st saved) ->
  (3 * List.length chunks <= List.length (fst (agents r))
   <= 5 * List.length chunks)%nat.
Proof.
  intro H. apply groq_process_document_run in H as (_ & _ & ->).
  unfold process_chunks.
  destruct (groq_process_from b (Z.of_nat (List.length chunks)) chunks 1
              (mkRun ([], new_ContextManager)
                     (set_total_chunks initial_stats
                                       (Z.of_nat (List.length chunks)))
                     [] None [])) as [_ Hr].
  cbv zeta in Hr. cbn [agents fst List.length] in Hr. lia.
Qed.

(** X11 with a backend that fails every request: five requests for the
    one chunk. *)
Lemma groq_run_request_count_witness :
  match groq_process_document failing_backend 10 (Ok (lit "some text")) 2000 200
  with
  | Returned (chunks, r, _) =>
      (3 * List.length chunks <= List.length (fst (agents r))
       <= 5 * List.length chunks)%nat
      /\ List.length (fst (agents r)) = 5%nat
  | _ => False
  end.
Proof.
  destruct (groq_process_document failing_backend 10 (Ok (lit "some text"))
              2000 200)
    as [[[chunks r] [st saved|e]]|e|] eqn:E;
    try (vm_compute in E; discriminate).
  split; [exact (groq_run_request_count _ _ _ _ _ _ _ _ _ E)|].
  vm_compute in E. injection E as _ <- _ _. reflexivity.
Defined.

(** *** Confidence with a backend that always answers *)

Lemma update_stats_half (st : Stats) (pairs : list QAPair) :
  Forall (fun pair => confidence pair = (1 # 2)%Q) pairs ->
  high_confidence (update_stats st pairs) = high_confidence st.
Proof.
  intro Hall. unfold update_stats.
  set (st0 := mkStats _ _ _ _ _).
  change (high_confidence st) with (high_confidence st0).
  generalize st0. clear st0.
  induction Hall as [|p ps Hp _ IH]; intro st0; cbn [fold_left]; [reflexivity|].
  rewrite IH. unfold count_pair. rewrite Hp. reflexivity.
Qed.

Lemma apply_validation_feedback_half (pairs : list QAPair) (feedback : str) :
  Forall (fun pair => confidence pair = (1 # 2)%Q)
         (_apply_validation_feedback pairs feedback).
Proof.
  rewrite apply_validation_feedback_map, valid_marker_never_found.
  apply Forall_forall. intros p Hp. apply in_map_iff in Hp as (q & <- & _).
  reflexivity.
Qed.

Lemma groq_chunk_body_half (b : backend) (chunk : str) (r : run agents_state) :
  (forall sent prompt, b sent prompt <> None) ->
  Forall (fun pair => confidence pair = (1 # 2)%Q) (all_qa_pairs r) ->
  let r' := fst (chunk_body (groq_qa_generator b) (groq_validator b)
                   (groq_context_manager b) chunk r) in
  high_confidence (stats r') = high_confidence (stats r)
  /\ Forall (fun pair => confidence pair = (1 # 2)%Q) (all_qa_pairs r').
Proof.
  intros Hb Hall. cbv zeta. unfold chunk_body.
  destruct (groq_qa_generator_ok b chunk (context r) (agents r))
    as (n & pairs & Hn & ->).
  unfold groq_validator, validate_qa_pairs, complete. cbv zeta. cbn [fst snd].
  match goal with
  | |- context [b ?s ?p] =>
      destruct (b s p) as [feedback|] eqn:E; [|now apply Hb in E]
  end.
  destruct (groq_context_manager b chunk _) as [w3 [c|e]];
    cbn [fst stats all_qa_pairs];
    (split; [apply update_stats_half, apply_validation_feedback_half|
             apply Forall_app; split;
             [exact Hall | apply apply_validation_feedback_half]]).
Qed.

Lemma groq_process_from_half (b : backend) (n : Z) (chunks : list str) :
  (forall sent prompt, b sent prompt <> None) ->
  forall (first : Z) (r : run agents_state),
    Forall (fun pair => confidence pair = (1 # 2)%Q) (all_qa_pairs r) ->
    let r' := process_from (groq_qa_generator b) (groq_validator b)
                (groq_context_manager b) n first chunks r in
    high_confidence (stats r') = high_confidence (stats r)
    /\ Forall (fun pair => confidence pair = (1 # 2)%Q) (all_qa_pairs r').
Proof.
  intro Hb. induction chunks as [|chunk rest IH]; intros first r Hall;
    cbv zeta; [now split|].
  unfold process_from in *. cbn [enumerate fold_left].
  assert (H1 : let r1 := process_chunk (groq_qa_generator b) (groq_validator b)
                           (groq_context_manager b) n r (first, chunk) in
               high_confidence (stats r1) = high_confidence (stats r)
               /\ Forall (fun pair => confidence pair = (1 # 2)%Q)
                         (all_qa_pairs r1)).
  { cbv zeta. unfold process_chunk.
    set (r0 := mkRun (agents r) (stats r) (all_qa_pairs r) (context r)
                     (log r ++ [ProcessingChunk first n])).
    destruct (groq_chunk_body_half b chunk r0 Hb Hall) as [Hh Hp].
    cbv zeta in Hh, Hp.
    destruct (chunk_body _ _ _ chunk r0) as [r1 [u|e]]; cbn [fst] in *;
      cbn [stats all_qa_pairs incr_failed high_confidence]; now split. }
  cbv zeta in H1. destruct H1 as [Hh1 Hp1].
  destruct (IH (first + 1) _ Hp1) as [Hh2 Hp2]. cbv zeta in Hh2, Hp2.
  split; [lia | exact Hp2].
Qed.

(** X12.  With the agents of agents.py and a backend that answers every
    request, no pair is ever counted as high confidence: every saved pair
    has confidence 0.5, whatever the validation feedback says, and
    [high_confidence] stays at zero. *)
Theorem groq_run_never_high_confidence
    (b : backend) (fuel : nat) (extracted : result str)
    (chunk_size overlap : Z) (chunks : list str) (r : run agents_state)
    (st : Stats) (saved : list QAPair) :
  (forall sent prompt, b sent prompt <> None) ->
  groq_process_document b fuel extracted chunk_size overlap
  = Returned (chunks, r, Processed st saved) ->
  high_confidence st = 0
  /\ Forall (fun pair => confidence pair = (1 # 2)%Q) saved.
Proof.
  intros Hb H. apply groq_process_document_run in H as (-> & -> & ->).
  unfold process_chunks.
  destruct (groq_process_from_half b (Z.of_nat (List.length chunks)) chunks Hb 1
              (mkRun ([], new_ContextManager)
                     (set_total_chunks initial_stats
                                       (Z.of_nat (List.length chunks)))
                     [] None [])) as [Hh Hp]; [constructor|].
  cbv zeta in Hh, Hp. split; [exact Hh | exact Hp].
Qed.

(** X12 with a backend whose every reply holds one question, its answer
    and the verdict "VALID: true": the pair is saved with confidence 0.5
    and counted as low confidence. *)
Lemma groq_run_never_high_confidence_witness :
  match groq_process_document agreeable_backend 10 (Ok (lit "some text"))
          2000 200
  with
  | Returned (_, _, Processed st saved) =>
      high_confidence st = 0
      /\ Forall (fun pair => confidence pair = (1 # 2)%Q) saved
      /\ low_confidence st = 1 /\ List.length saved = 1%nat
  | _ => False
  end.
Proof.
  destruct (groq_process_document agreeable_backend 10 (Ok (lit "some text"))
              2000 200)
    as [[[chunks r] [st saved|e]]|e|] eqn:E;
    try (vm_compute in E; discriminate).
  destruct (groq_run_never_high_confidence agreeable_backend _ _ _ _ _ _ _ _
              ltac:(discriminate) E) as [H1 H2].
  vm_compute in E. injection E as _ _ <- <-.
  repeat split; try assumption.
Defined.

(** ** update_context when the request fails *)

(** X13.  When the summary request fails, [update_context] returns the
    last 500 characters of the chunk, or the whole chunk when it is
    shorter, and the manager is left as it was. *)
Theorem update_context_fallback
    (b : backend) (self : ContextManager) (chunk : str) (sent : list str) :
  b sent (Prompts.CHUNK_SUMMARY chunk) = None ->
  let out := update_context b self chunk sent in
  snd (fst out) = self
  /\ len (snd out) = Z.min 500 (len chunk)
  /\ exists pre : str, chunk = pre ++ snd out.
Proof.
  intro Hb. cbv zeta. unfold update_context, complete. rewrite Hb.
  cbn [fst snd]. split; [reflexivity|].
  unfold slice_from, clamp_index. cbn [Z.ltb Z.compare].
  pose proof (len_nonneg chunk) as Hl. split.
  - unfold len in *. rewrite length_skipn. lia.
  - exists (firstn (Z.to_nat (Z.max (-500 + len chunk) 0)) chunk).
    now rewrite firstn_skipn.
Qed.

(** X13 on a short chunk: it is returned whole. *)
Lemma update_context_fallback_witness :
  snd (update_context failing_backend new_ContextManager (lit "short chunk") [])
  = lit "short chunk".
Proof.
  destruct (update_context_fallback failing_backend new_ContextManager
              (lit "short chunk") [] eq_refl) as (_ & Hlen & pre & Hpre).
  cbv zeta in Hlen, Hpre.
  assert (Hp : List.length pre = 0%nat).
  { apply (f_equal (@List.length ascii)) in Hpre. rewrite length_app in Hpre.
    unfold len in Hlen. cbn [List.length lit list_ascii_of_string] in Hlen, Hpre.
    lia. }
  destruct pre; [|discriminate]. now rewrite Hpre at 2.
Defined.

(** ** generate_qa_pairs with a negative retry count *)

(** X14.  With a negative retry count the loop over the attempts is
    empty: [generate_qa_pairs] sends no request and falls off its end,
    returning [None] and not a list. *)
Theorem generate_qa_pairs_negative_retry
    (b : backend) (chunk : str) (context : option str) (retry_count : Z)
    (sent : list str) :
  retry_count < 0 ->
  generate_qa_pairs b chunk context retry_count sent = (sent, None).
Proof.
  intro H. unfold generate_qa_pairs, range.
  replace (Z.to_nat (retry_count + 1)) with 0%nat by lia. reflexivity.
Qed.

(** X14 with a retry count of -1. *)
Lemma generate_qa_pairs_negative_retry_witness :
  generate_qa_pairs agreeable_backend (lit "c") None (-1) [] = ([], None).
Proof.
  apply (generate_qa_pairs_negative_retry agreeable_backend (lit "c") None (-1) []).
  lia.
Defined.

(** ** process_document on a text the chunker rejects *)

(** X15.  A document longer than 2000 characters that holds no newline
    and no full stop is not processed at all, whatever chunk size and
    overlap are asked for: the chunker's [ValueError] reaches the outer
    handler, no request is sent, and the status is the error. *)
Theorem groq_process_document_without_breaks
    (b : backend) (fuel : nat) (text : str) (chunk_size overlap : Z) :
  2000 < len text ->
  ~ In nl text -> ~ In "."%char text ->
  groq_process_document b (S fuel) (Ok text) chunk_size overlap
  = Returned ([], mkRun ([], new_ContextManager) initial_stats [] None [],
              ErrorProcessingDocument ValueError).
Proof.
  intros Hlen Hnl Hdot.
  unfold groq_process_document, process_document, groq_DatasetGenerator,
    new_DatasetGenerator.
  cbn [agents0 stats0 text_processor].
  rewrite first_window_raises; try assumption; [reflexivity|].
  intros ->. unfold len in Hlen. cbn in Hlen. lia.
Qed.

(** X15 on a text of 2001 letters. *)
Lemma groq_process_document_without_breaks_witness :
  groq_process_document failing_backend 1 (Ok (repeat "a"%char 2001)) 500 50
  = Returned ([], mkRun ([], new_ContextManager) initial_stats [] None [],
              ErrorProcessingDocument ValueError).
Proof.
  apply (groq_process_document_without_breaks failing_backend 0
           (repeat "a"%char 2001) 500 50).
  - unfold len. rewrite repeat_length. lia.
  - intro H. apply repeat_spec in H. discriminate.
  - intro H. apply repeat_spec in H. discriminate.
Defined.
